(** * Shallow embedding of [beancount/scripts/example.py]

    The script synthesises a multi-year example ledger.  This development
    embeds the parts of it that carry invariants: Python's [decimal]
    arithmetic (context precision and ROUND_HALF_EVEN), the payroll engine of
    [generate_employment_income], the periodic expense synthesiser, the
    balance-tracked transfer engine, the non-negativity check, the cadence
    generators and the template [replace] helper.

    Transactions are built as structured records: the template text that the
    script formats and hands to [parser.parse_string] is rendered directly as
    the postings that the parser returns for it (a number printed with
    ['{:.2f}'] is parsed back as that 2-digit decimal, a leading ["-"] in the
    template negates a number that is not negative).  Where a statement
    covers a whole generator, the final [parse] of the text is a parameter:
    the parser is not part of the script. *)

From Stdlib Require Import ZArith QArith Qround Qpower Qabs List Bool String Ascii Lia.
Import ListNotations.

Open Scope Z_scope.

(* ------------------------------------------------------------------------- *)
(** ** Python [decimal.Decimal] *)

Module Dec.

(** Number of decimal digits of a positive integer: the least [k] with
    [n < 10 ^ k], searched upwards from [k] with [pw = 10 ^ k] ([fuel]
    bounds the loop). *)
Fixpoint ndigits_from (fuel : nat) (n k pw : Z) : Z :=
  match fuel with
  | O => k
  | S f => if n <? pw then k else ndigits_from f n (k + 1) (pw * 10)
  end.

Definition ndigits (p : positive) : Z :=
  ndigits_from (Pos.to_nat (Pos.size p)) (Zpos p) 1 10.

Definition pow10 (e : Z) : Q := Qpower (inject_Z 10) e.

(** Adjusted exponent of a positive rational: [floor (log10 x)]. *)
Definition adjusted (x : Q) : Z :=
  let a0 := ndigits (Z.to_pos (Qnum x)) - ndigits (Qden x) in
  if Qle_bool (pow10 a0) x then a0 else a0 - 1.

(** Round a rational to the nearest integer, ties to even
    (ROUND_HALF_EVEN, the default rounding of [decimal]). *)
Definition round_half_even (y : Q) : Z :=
  let f := Qfloor y in
  match Qcompare (y - inject_Z f) (1 # 2) with
  | Lt => f
  | Gt => f + 1
  | Eq => if Z.even f then f else f + 1
  end.

(** The result of an arithmetic operation in a context of precision [prec]:
    the exact value rounded to [prec] significant digits. *)
Definition round_prec (prec : Z) (x : Q) : Q :=
  if Qeq_bool x 0 then 0
  else
    let e := adjusted (Qabs x) + 1 - prec in
    inject_Z (round_half_even (x * pow10 (- e))) * pow10 e.

Definition add (prec : Z) (x y : Q) : Q := round_prec prec (x + y).
Definition sub (prec : Z) (x y : Q) : Q := round_prec prec (x - y).
Definition mul (prec : Z) (x y : Q) : Q := round_prec prec (x * y).
Definition div (prec : Z) (x y : Q) : Q := round_prec prec (x / y).

(** Precision of the default context. *)
Definition default_prec : Z := 28.

(** The number read back from ['{:.2f}'.format(x)]: [x] quantized to two
    fractional digits, ties to even. *)
Definition fmt2 (x : Q) : Q := inject_Z (round_half_even (x * 100)) * (1 # 100).

(** Leibniz equality test on the representation, used by the finite checks. *)
Definition Qeqb_repr (x y : Q) : bool :=
  Z.eqb (Qnum x) (Qnum y) && Pos.eqb (Qden x) (Qden y).

End Dec.

Notation "x ⊕ y" := (Dec.add Dec.default_prec x y) (at level 50, left associativity).
Notation "x ⊖ y" := (Dec.sub Dec.default_prec x y) (at level 50, left associativity).
Notation "x ⊗ y" := (Dec.mul Dec.default_prec x y) (at level 40, left associativity).
Notation "x ⊘ y" := (Dec.div Dec.default_prec x y) (at level 40, left associativity).

Open Scope Q_scope.

(** [a < b] on rationals, as a boolean. *)
Definition Qltb (a b : Q) : bool := negb (Qle_bool b a).

(** Python's [min(a, b)]: the first argument unless the second is smaller. *)
Definition py_min (a b : Q) : Q := if Qle_bool a b then a else b.

(* ------------------------------------------------------------------------- *)
(** ** Dates ([datetime.date]) *)

Record date := mkdate { year : Z; month : Z; day : Z }.

Definition is_leap (y : Z) : bool :=
  (Z.eqb (y mod 4) 0 && negb (Z.eqb (y mod 100) 0)) || Z.eqb (y mod 400) 0.

Definition days_in_month (y m : Z) : Z :=
  if Z.eqb m 2 then (if is_leap y then 29 else 28)
  else if Z.eqb m 4 || Z.eqb m 6 || Z.eqb m 9 || Z.eqb m 11 then 30
  else 31.

(** The next calendar day, years unbounded ([d + datetime.timedelta(days=1)]
    with its OverflowError past 9999-12-31 is [py_next_day] below). *)
Definition next_day (d : date) : date :=
  if (day d <? days_in_month (year d) (month d))%Z
  then mkdate (year d) (month d) (day d + 1)
  else if (month d <? 12)%Z then mkdate (year d) (month d + 1) 1
  else mkdate (year d + 1) 1 1.

(** Calendar arithmetic: [n >= 0] days after [d], years unbounded (the
    bounds of [datetime.date] are checked in [py_add_days] below). *)
Definition add_days (d : date) (n : Z) : date := Nat.iter (Z.to_nat n) next_day d.

(** [a < b] on dates. *)
Definition date_ltb (a b : date) : bool :=
  (year a <? year b)%Z
  || (Z.eqb (year a) (year b) && ((month a <? month b)%Z
      || (Z.eqb (month a) (month b) && (day a <? day b)%Z))).

(** [str(n)] for an integer. *)
Fixpoint z_digits (fuel : nat) (n : Z) (acc : string) : string :=
  match fuel with
  | O => acc
  | S f =>
      let acc' := String (ascii_of_nat (48 + Z.to_nat (n mod 10))) acc in
      if (n <? 10)%Z then acc' else z_digits f (n / 10) acc'
  end.

Definition string_of_Z (n : Z) : string :=
  if (n <? 0)%Z then ("-" ++ z_digits 40 (- n) "")%string else z_digits 40 n "".

(* ------------------------------------------------------------------------- *)
(** ** Ledger records ([beancount.core.data]) *)

Record posting := mkposting { account : string; number : Q; currency : string }.

Record transaction := mktxn {
  txn_date : date;
  payee : string;
  narration : string;
  postings : list posting }.

(** Sum of the numbers of the postings in currency [c]. *)
Definition currency_sum (c : string) (ps : list posting) : Q :=
  fold_right (fun p acc => if String.eqb (currency p) c then number p + acc else acc) 0 ps.

(** Double-entry balance: for every currency among the postings, the postings
    in that currency sum to zero. *)
Definition balanced (t : transaction) : bool :=
  forallb (fun p => Qeq_bool (currency_sum (currency p) (postings t)) 0) (postings t).

(** Exceptions raised by the script and the library calls it makes. *)
Inductive error := AssertionError | ValueError | KeyError | OverflowError | AttributeError.

Inductive result (A : Type) := Ok (a : A) | Err (e : error).
Arguments Ok {A} a.
Arguments Err {A} e.

(* ------------------------------------------------------------------------- *)
(** ** The payroll engine ([generate_employment_income]) *)

(** [retirement_limits]: a dict keyed by year, with one entry under [None]. *)
Definition retirement_limits : list (option Z * Q) :=
  [(Some 2000%Z, 10500); (Some 2001%Z, 10500); (Some 2002%Z, 11000);
   (Some 2003%Z, 12000); (Some 2004%Z, 13000); (Some 2005%Z, 14000);
   (Some 2006%Z, 15000); (Some 2007%Z, 15500); (Some 2008%Z, 15500);
   (Some 2009%Z, 16500); (Some 2010%Z, 16500); (Some 2011%Z, 16500);
   (Some 2012%Z, 17000); (Some 2013%Z, 17500); (Some 2014%Z, 17500);
   (Some 2015%Z, 18000); (Some 2016%Z, 18000); (None, 18500)].

Definition key_eqb (k k' : option Z) : bool :=
  match k, k' with
  | Some a, Some b => Z.eqb a b
  | None, None => true
  | _, _ => false
  end.

(** [d[k]] on a dict given as an association list: [None] is the KeyError. *)
Fixpoint dict_get (k : option Z) (d : list (option Z * Q)) : option Q :=
  match d with
  | [] => None
  | (k', v) :: d' => if key_eqb k k' then Some v else dict_get k d'
  end.

(** [retirement_limits[year]] for an integer year. *)
Definition retirement_limit (y : Z) : option Q := dict_get (Some y) retirement_limits.

Section Payroll.

Variables (employer account_deposit account_retirement : string).
Variable annual_salary : Q.

(** [biweekly_pay = annual_salary / 26]; [gross = biweekly_pay]. *)
Definition gross : Q := annual_salary ⊘ 26.

Definition medicare : Q := gross ⊗ (231 # 10000).
Definition federal : Q := gross ⊗ (2303 # 10000).
Definition state : Q := gross ⊗ (791 # 10000).
Definition city : Q := gross ⊗ (379 # 10000).
Definition sdi : Q := 112 # 100.

Definition lifeinsurance : Q := 2432 # 100.
Definition dental : Q := 290 # 100.
Definition medical : Q := 2738 # 100.
Definition vision : Q := 4230 # 100.

Definition fixed : Q :=
  medicare ⊕ federal ⊕ state ⊕ city ⊕ sdi ⊕ dental ⊕ medical ⊕ vision.

(** [(annual_vacation_days * D('8')) / D('26')] in a context of precision 4. *)
Definition vacation_hrs : Q := Dec.div 4 (Dec.mul 4 15 8) 26.

(** [math.ceil((gross * D('0.25')) / 100) * 100], an [int]. *)
Definition retirement_uncapped : Q :=
  inject_Z (Qceiling ((gross ⊗ (1 # 4)) ⊘ 100) * 100).

(** [gross * D('0.0610')]. *)
Definition socsec_uncapped : Q := gross ⊗ (61 # 1000).

(** [deposit = (gross - retirement - fixed - socsec)] in a context of
    precision 6. *)
Definition deposit (retirement socsec : Q) : Q :=
  Dec.sub 6 (Dec.sub 6 (Dec.sub 6 gross retirement) fixed) socsec.

(** The format fields of the payroll template. *)
Inductive field :=
  FDeposit | FRetirement | FGross | FLife | FDental | FMedical | FVision
| FMedicare | FFederal | FState | FCity | FSdi | FSocsec | FVacation.

(** Accounts of the template, after [replace]: [Deposit], [Retirement] and
    [Year] are substituted, the other accounts are literal. *)
Inductive acct_tmpl := AcDeposit | AcRetirement | AcLit (s : string) | AcTax (s : string).

Record line := mkline { l_account : acct_tmpl; l_neg : bool; l_field : field; l_currency : string }.

(** The template lines, in order. *)
Definition template : list line :=
  [ mkline AcDeposit false FDeposit "CCY";
    mkline AcRetirement false FRetirement "CCY";
    mkline (AcLit "Assets:CC:Federal:PreTax401k") true FRetirement "DEFCCY";
    mkline (AcTax "Federal:PreTax401k") false FRetirement "DEFCCY";
    mkline (AcLit "Income:CC:Employer1:Salary") true FGross "CCY";
    mkline (AcLit "Income:CC:Employer1:GroupTermLife") true FLife "CCY";
    mkline (AcLit "Expenses:Health:Life:GroupTermLife") false FLife "CCY";
    mkline (AcLit "Expenses:Health:Dental:Insurance") false FDental "CCY";
    mkline (AcLit "Expenses:Health:Medical:Insurance") false FMedical "CCY";
    mkline (AcLit "Expenses:Health:Vision:Insurance") false FVision "CCY";
    mkline (AcTax "Medicare") false FMedicare "CCY";
    mkline (AcTax "Federal") false FFederal "CCY";
    mkline (AcTax "StateNY") false FState "CCY";
    mkline (AcTax "CityNYC") false FCity "CCY";
    mkline (AcTax "SDI") false FSdi "CCY";
    mkline (AcTax "SocSec") false FSocsec "CCY";
    mkline (AcLit "Assets:CC:Employer1:Vacation") false FVacation "VACCCY";
    mkline (AcLit "Income:CC:Employer1:Vacation") true FVacation "VACCCY" ].

(** [re.search(r'\bretirement\b', line)]: the lines formatting [retirement]. *)
Definition mentions_retirement (l : line) : bool :=
  match l_field l with FRetirement => true | _ => false end.

Definition render_account (y : Z) (a : acct_tmpl) : string :=
  match a with
  | AcDeposit => account_deposit
  | AcRetirement => account_retirement
  | AcLit s => s
  | AcTax s => ("Expenses:Taxes:Y" ++ string_of_Z y ++ ":CC:" ++ s)%string
  end.

(** The number the parser reads for a field: ['{x:.2f}'] is [fmt2 x], the
    fields written ['{dental}'] etc. print the Decimal as it is. *)
Definition field_value (retirement socsec : Q) (f : field) : Q :=
  match f with
  | FDeposit => Dec.fmt2 (deposit retirement socsec)
  | FRetirement => Dec.fmt2 retirement
  | FGross => Dec.fmt2 gross
  | FLife => Dec.fmt2 lifeinsurance
  | FDental => dental
  | FMedical => medical
  | FVision => vision
  | FMedicare => Dec.fmt2 medicare
  | FFederal => Dec.fmt2 federal
  | FState => Dec.fmt2 state
  | FCity => Dec.fmt2 city
  | FSdi => Dec.fmt2 sdi
  | FSocsec => Dec.fmt2 socsec
  | FVacation => Dec.fmt2 vacation_hrs
  end.

Definition render_line (y : Z) (retirement socsec : Q) (l : line) : posting :=
  let v := field_value retirement socsec (l_field l) in
  mkposting (render_account y (l_account l)) (if l_neg l then - v else v) (l_currency l).

(** The lines kept: all of them, or those without [retirement] when
    [retirement == ZERO]. *)
Definition kept_lines (retirement : Q) : list line :=
  if Qeq_bool retirement 0 then filter (fun l => negb (mentions_retirement l)) template
  else template.

Definition payroll_txn (d : date) (retirement socsec : Q) : transaction :=
  mktxn d employer "Payroll"
    (map (render_line (year d) retirement socsec) (kept_lines retirement)).

(** Loop state: [date_prev], [contrib_retirement], [contrib_socsec]. *)
Record pay_state := mkpaystate {
  date_prev : option date;
  contrib_retirement : Q;
  contrib_socsec : Q }.

Definition init_pay_state : pay_state := mkpaystate None 0 0.

(** What one iteration computes. *)
Record payroll := mkpayroll {
  pay_date : date;
  pay_retirement : Q;
  pay_socsec : Q;
  pay_cap_retirement : Q;   (* [contrib_retirement] after the decrement *)
  pay_cap_socsec : Q;       (* [contrib_socsec] after the decrement *)
  pay_txn : transaction }.

Definition new_year (prev : option date) (d : date) : bool :=
  match prev with None => true | Some p => negb (Z.eqb (year p) (year d)) end.

(** The capacities in force for the pay date [d]:
    [if not date_prev or date_prev.year != date.year: ...]. *)
Definition capacities (st : pay_state) (d : date) : result (Q * Q) :=
  if new_year (date_prev st) d then
    match retirement_limit (year d) with
    | Some lim => Ok (lim, 7000)
    | None => Err KeyError
    end
  else Ok (contrib_retirement st, contrib_socsec st).

(** One iteration of the loop over pay dates. *)
Definition pay_step (st : pay_state) (d : date) : result (pay_state * payroll) :=
  match capacities st d with
  | Err e => Err e
  | Ok (cr, cs) =>
      let retirement := py_min cr retirement_uncapped in
      let cr' := cr ⊖ retirement in
      let socsec := py_min cs socsec_uncapped in
      let cs' := cs ⊖ socsec in
      Ok (mkpaystate (Some d) cr' cs',
          mkpayroll d retirement socsec cr' cs' (payroll_txn d retirement socsec))
  end.

Fixpoint pay_run (st : pay_state) (ds : list date) : result (list payroll) :=
  match ds with
  | [] => Ok []
  | d :: ds' =>
      match pay_step st d with
      | Err e => Err e
      | Ok (st', pr) =>
          match pay_run st' ds' with
          | Ok prs => Ok (pr :: prs)
          | Err e => Err e
          end
      end
  end.

(** The payroll transactions of [generate_employment_income] for the pay
    dates [ds] (the biweekly Thursdays that [rrule] and [skipiter] produce). *)
Definition generate_employment_income (ds : list date) : result (list transaction) :=
  match pay_run init_pay_state ds with
  | Ok prs => Ok (map pay_txn prs)
  | Err e => Err e
  end.


End Payroll.

(* ------------------------------------------------------------------------- *)
(** ** Periodic expenses ([generate_periodic_expenses]) *)

(** A payee or narration argument: a [str], or a sequence to draw from. *)
Inductive str_spec := SFixed (s : string) | SChoice (l : list string).

Section Periodic.

Variables (payee_spec narration_spec : str_spec) (account_from account_to : string).
(** [amount_generator]: the value returned by its [n]-th call, as converted
    by [D(...)]. *)
Variable amount_generator : nat -> Q.
(** [random.choice] for the payee and the narration of the [n]-th
    transaction. *)
Variables (payee_choice narration_choice : nat -> list string -> string).

Definition pick (choice : nat -> list string -> string) (n : nat) (sp : str_spec) : string :=
  match sp with SFixed s => s | SChoice l => choice n l end.

(** The transaction written for the [n]-th date: [Account:From -AMOUNT CCY]
    and [Account:To AMOUNT CCY] with [AMOUNT = '{:.2f}'.format(txn_amount)]. *)
Definition periodic_txn (n : nat) (d : date) : transaction :=
  let amt := Dec.fmt2 (amount_generator n) in
  mktxn d (pick payee_choice n payee_spec) (pick narration_choice n narration_spec)
    [mkposting account_from (- amt) "CCY"; mkposting account_to amt "CCY"].

Fixpoint periodic_loop (n : nat) (ds : list date) : list transaction :=
  match ds with
  | [] => []
  | d :: ds' => periodic_txn n d :: periodic_loop (S n) ds'
  end.


End Periodic.

(* ------------------------------------------------------------------------- *)
(** ** Inventories and realization *)

(** Modelled from the spec: [beancount.core.inventory.Inventory] (not part of
    this file's sources).  "A mapping from currency to accumulated number ...
    mutated only by explicit add position operations": adding to a currency
    already present adds the numbers (a Decimal addition), a new currency is
    appended. *)
Definition inventory := list (string * Q).

Fixpoint inv_add (inv : inventory) (c : string) (n : Q) : inventory :=
  match inv with
  | [] => [(c, n)]
  | (c', m) :: inv' =>
      if String.eqb c c' then (c', m ⊕ n) :: inv' else (c', m) :: inv_add inv' c n
  end.

(** [Inventory.add_position(posting.position)]. *)
Definition add_position (inv : inventory) (p : posting) : inventory :=
  inv_add inv (currency p) (number p).

(** [Inventory.get_amount(c).number]: zero for an absent currency. *)
Fixpoint get_amount (inv : inventory) (c : string) : Q :=
  match inv with
  | [] => 0
  | (c', m) :: inv' => if String.eqb c c' then m else get_amount inv' c
  end.

(** [Inventory.get_amounts()]. *)
Definition get_amounts (inv : inventory) : list (string * Q) := inv.

(** Directives of a loaded ledger: transactions, and the other directives
    (open, balance, pad, ...) that name an account. *)
Inductive directive := DTxn (t : transaction) | DOther (d : date) (acct : string).

(** An element of [real_account.postings]: a posting with the date of its
    entry, or another directive. *)
Inductive real_item := RPosting (d : date) (p : posting) | RDirective (d : date).

(** Modelled from the spec: [realization.get(realization.realize(entries),
    account).postings] (not part of this file's sources), "the ordered
    postings affecting that account". *)
Definition realize_postings (entries : list directive) (acct : string) : list real_item :=
  flat_map (fun e =>
    match e with
    | DTxn t =>
        map (RPosting (txn_date t)) (filter (fun p => String.eqb (account p) acct) (postings t))
    | DOther d a => if String.eqb a acct then [RDirective d] else []
    end) entries.

(** Whether [realization.get(realization.realize(entries), account)] finds a
    node: the realization has a node for every account named by an entry and
    for each of its parents; otherwise [get] returns [None] and reading its
    [.postings] raises AttributeError. *)
Definition realize_has_account (entries : list directive) (acct : string) : bool :=
  existsb (fun a => String.eqb a acct || String.prefix (acct ++ ":") a)
    (flat_map (fun e =>
       match e with
       | DTxn t => map account (postings t)
       | DOther _ a => [a]
       end) entries).

(* ------------------------------------------------------------------------- *)
(** ** Outgoing transfers ([generate_outgoing_transfers]) *)

(** [date.max], 9999-12-31. *)
Definition date_max : date := mkdate 9999 12 31.

(** [posting.entry.date + datetime.timedelta(days=1)] on a [datetime.date]:
    the next calendar day, or OverflowError past [date.max]. *)
Definition py_next_day (d : date) : result date :=
  let d' := next_day d in
  if (year d' <=? 9999)%Z then Ok d' else Err OverflowError.

Section Transfers.

Variables (account_mon account_out : string) (transfer_minimum transfer_threshold : Q).

(** The transaction written for a transfer of [amount] on date [d]. *)
Definition transfer_txn (d : date) (amount : Q) : transaction :=
  let amt := Dec.fmt2 amount in
  mktxn d "" "Transfering accumulated savings to other account"
    [mkposting account_mon (- amt) "CCY"; mkposting account_out amt "CCY"].

(** One iteration of the loop over [real_account.postings]; the state is
    [balance] and the transactions written to [oss] so far. *)
Definition transfer_step (st : inventory * list transaction) (item : real_item)
  : inventory * list transaction :=
  let (balance, out) := st in
  match item with
  | RDirective _ => st
  | RPosting d p =>
      let balance1 := add_position balance p in
      let current_amount := get_amount balance1 "CCY" in
      if Qle_bool current_amount (transfer_minimum ⊕ transfer_threshold) then (balance1, out)
      else
        let transfer_amount := current_amount ⊖ transfer_minimum in
        (inv_add balance1 "CCY" (- transfer_amount),
         out ++ [transfer_txn (next_day d) transfer_amount])
  end.

Definition transfer_loop (items : list real_item) : inventory * list transaction :=
  fold_left transfer_step items ([], []).

Definition generate_outgoing_transfers (entries : list directive) : list transaction :=
  snd (transfer_loop (realize_postings entries account_mon)).

(** The loop with its failure: the date of a transfer,
    [posting.entry.date + timedelta(days=1)], is computed before the text is
    written, and raises OverflowError for a posting dated 9999-12-31. *)
Definition transfer_step_run (st : result (inventory * list transaction)) (item : real_item)
  : result (inventory * list transaction) :=
  match st with
  | Err e => Err e
  | Ok (balance, out) =>
      match item with
      | RDirective _ => st
      | RPosting d p =>
          let balance1 := add_position balance p in
          let current_amount := get_amount balance1 "CCY" in
          if Qle_bool current_amount (transfer_minimum ⊕ transfer_threshold) then Ok (balance1, out)
          else
            let transfer_amount := current_amount ⊖ transfer_minimum in
            match py_next_day d with
            | Err e => Err e
            | Ok d' =>
                Ok (inv_add balance1 "CCY" (- transfer_amount),
                    out ++ [transfer_txn d' transfer_amount])
            end
      end
  end.

Definition transfer_loop_run (items : list real_item) : result (inventory * list transaction) :=
  fold_left transfer_step_run items (Ok ([], [])).

(** [generate_outgoing_transfers] as a whole: [realization.get(...).postings]
    (AttributeError when the realization has no node for [account]), the
    loop, then [parse(oss.getvalue())].  The parser is an external
    collaborator that returns the entries of a text or raises ValueError; it
    is a parameter here, applied to the transactions the text is made of.
    [transfer_txn] is that text for accounts that [replace] copies
    unchanged ([transfer_accounts_plain]) and a transfer amount that is not
    negative (the template writes [-AMOUNT]). *)
Definition generate_outgoing_transfers_run
  (parse : list transaction -> result (list transaction)) (entries : list directive)
  : result (list transaction) :=
  if negb (realize_has_account entries account_mon) then Err AttributeError else
  match transfer_loop_run (realize_postings entries account_mon) with
  | Err e => Err e
  | Ok (_, written) => parse written
  end.

End Transfers.

(* ------------------------------------------------------------------------- *)
(** ** Final validation ([check_non_negative], [validate_output]) *)

Definition all_positive (inv : inventory) : bool :=
  forallb (fun '(_, n) => Qltb 0 n) (get_amounts inv).

Fixpoint check_loop (balance : inventory) (items : list real_item) : result unit :=
  match items with
  | [] => Ok tt
  | RDirective _ :: items' => check_loop balance items'
  | RPosting _ p :: items' =>
      let balance1 := add_position balance p in
      if all_positive balance1 then check_loop balance1 items' else Err AssertionError
  end.

Definition check_non_negative (entries : list directive) (acct : string) : result unit :=
  check_loop [] (realize_postings entries acct).

(** The loop of [validate_output] over [positive_accounts], on the loaded
    entries. *)
Fixpoint check_accounts (loaded : list directive) (accts : list string) : result unit :=
  match accts with
  | [] => Ok tt
  | a :: accts' =>
      match check_non_negative loaded a with
      | Ok _ => check_accounts loaded accts'
      | Err e => Err e
      end
  end.

(** The running inventories after each posting of a list of items. *)
Fixpoint running_balances (balance : inventory) (items : list real_item) : list inventory :=
  match items with
  | [] => []
  | RDirective _ :: items' => running_balances balance items'
  | RPosting _ p :: items' =>
      let balance1 := add_position balance p in balance1 :: running_balances balance1 items'
  end.

(* ------------------------------------------------------------------------- *)
(** ** Cadence generators ([date_seq], [delay_dates]) *)

Definition prev_day (d : date) : date :=
  if (1 <? day d)%Z then mkdate (year d) (month d) (day d - 1)
  else if (1 <? month d)%Z
  then mkdate (year d) (month d - 1) (days_in_month (year d) (month d - 1))
  else mkdate (year d - 1) 12 31.

(** Calendar arithmetic: [n] days after [d] for any integer [n], years
    unbounded. *)
Definition add_days_z (d : date) (n : Z) : date :=
  if (0 <=? n)%Z then Nat.iter (Z.to_nat n) next_day d
  else Nat.iter (Z.to_nat (- n)) prev_day d.

(** [d + datetime.timedelta(days=n)] on a [datetime.date]: [timedelta] raises
    OverflowError for more than 999999999 days, and the sum raises it outside
    years 1..9999. *)
Definition py_add_days (d : date) (n : Z) : result date :=
  if (999999999 <? Z.abs n)%Z then Err OverflowError
  else
    let d' := add_days_z d n in
    if (1 <=? year d')%Z && (year d' <=? 9999)%Z then Ok d' else Err OverflowError.

(** [date.toordinal()]. *)
Definition toordinal (d : date) : Z :=
  let y := (year d - 1)%Z in
  (y * 365 + y / 4 - y / 100 + y / 400
   + fold_right Z.add 0 (map (fun m => days_in_month (year d) (Z.of_nat m))
                            (seq 1 (Z.to_nat (month d - 1))))
   + day d)%Z.

(** The random source: [rng i] is the value of [random._randbelow] at the
    [i]-th draw, reduced modulo the width. *)
Definition randint (rng : nat -> Z) (i : nat) (a b : Z) : result (Z * nat) :=
  let width := (b + 1 - a)%Z in
  if (width <=? 0)%Z then Err ValueError   (* "empty range for randrange()" *)
  else Ok ((a + rng i mod width)%Z, S i).

(** A consumed generator: the values it yielded, then the exception that
    ended it, if any. *)
Definition gen_out := (list date * option error)%type.

Fixpoint date_seq_loop (fuel : nat) (rng : nat -> Z) (i : nat) (d date_end : date)
    (days_min days_max : Z) : gen_out :=
  match fuel with
  | O => ([], None)
  | S f =>
      if date_ltb d date_end then
        match randint rng i days_min days_max with
        | Err e => ([], Some e)
        | Ok (n, i') =>
            match py_add_days d n with
            | Err e => ([], Some e)
            | Ok d' =>
                let '(rest, err) := date_seq_loop f rng i' d' date_end days_min days_max in
                (d' :: rest, err)
            end
        end
      else ([], None)
  end.

(** [date_seq], iterated to the end.  Each step advances at least
    [days_min >= 1] days, so the distance in days bounds the iterations. *)
Definition date_seq (rng : nat -> Z) (date_begin date_end : date) (days_min days_max : Z)
  : gen_out :=
  if negb (0 <? days_min)%Z then ([], Some AssertionError)
  else if negb (days_min <=? days_max)%Z then ([], Some AssertionError)
  else date_seq_loop (S (Z.to_nat (toordinal date_end - toordinal date_begin)))
         rng 0 date_begin date_end days_min days_max.

Fixpoint delay_loop (rng : nat -> Z) (i : nat) (ds : list date) (dmin dmax : Z) : gen_out :=
  match ds with
  | [] => ([], None)
  | dt :: ds' =>
      match randint rng i dmin dmax with
      | Err e => ([], Some e)
      | Ok (n, i') =>
          match py_add_days dt n with
          | Err e => ([], Some e)
          | Ok dt' =>
              let '(rest, err) := delay_loop rng i' ds' dmin dmax in
              (dt' :: rest, err)
          end
      end
  end.

(** [delay_dates], iterated to the end, over the dates of [date_iter]. *)
Definition delay_dates (rng : nat -> Z) (date_iter : list date) (delay_days_min delay_days_max : Z)
  : gen_out :=
  delay_loop rng 0 date_iter delay_days_min delay_days_max.

(* ------------------------------------------------------------------------- *)
(** ** Template substitution ([replace]) *)

Definition is_word_char (c : ascii) : bool :=
  let n := nat_of_ascii c in
  (Nat.leb 48 n && Nat.leb n 57) || (Nat.leb 65 n && Nat.leb n 90)
  || (Nat.leb 97 n && Nat.leb n 122) || Nat.eqb n 95.

Definition last_is_word (s : list ascii) : bool :=
  match rev s with [] => false | c :: _ => is_word_char c end.

Definition first_is_word (s : list ascii) : bool :=
  match s with [] => false | c :: _ => is_word_char c end.

Fixpoint is_prefix (p s : list ascii) : bool :=
  match p, s with
  | [], _ => true
  | a :: p', b :: s' => Ascii.eqb a b && is_prefix p' s'
  | _ :: _, [] => false
  end.

(** [re.sub(r'\b{}\b'.format(from_), to_, output)] for a key [from_] without
    regular-expression operators and a replacement [to_] without
    backslashes: leftmost non-overlapping occurrences of [pat] with a word
    boundary on both sides are replaced.  [prev_word] tells whether the
    character before the scanned suffix is a word character. *)
Fixpoint sub_word_aux (fuel : nat) (pat rep : list ascii) (prev_word : bool) (s : list ascii)
  : list ascii :=
  match fuel with
  | O => s
  | S f =>
      match s with
      | [] => []
      | c :: s' =>
          let rest := skipn (List.length pat) s in
          if is_prefix pat s
             && negb (Bool.eqb prev_word (first_is_word pat))
             && negb (Bool.eqb (last_is_word pat) (first_is_word rest))
          then rep ++ sub_word_aux f pat rep (last_is_word pat) rest
          else c :: sub_word_aux f pat rep (is_word_char c) s'
      end
  end.

Definition sub_word (pat rep s : list ascii) : list ascii :=
  match pat with
  | [] => s
  | _ => sub_word_aux (List.length s) pat rep false s
  end.

Definition is_blank_char (c : ascii) : bool :=
  Ascii.eqb c " "%char || Ascii.eqb c (ascii_of_nat 9).

(** [str.split('\n')]. *)
Fixpoint split_lines (s : list ascii) : list (list ascii) :=
  match s with
  | [] => [[]]
  | c :: s' =>
      if Ascii.eqb c (ascii_of_nat 10) then [] :: split_lines s'
      else match split_lines s' with
           | l :: ls => (c :: l) :: ls
           | [] => [[c]]
           end
  end.

Fixpoint join_lines (ls : list (list ascii)) : list ascii :=
  match ls with
  | [] => []
  | [l] => l
  | l :: ls' => l ++ ascii_of_nat 10 :: join_lines ls'
  end.

Fixpoint leading_blanks (l : list ascii) : list ascii :=
  match l with
  | c :: l' => if is_blank_char c then c :: leading_blanks l' else []
  | [] => []
  end.

Fixpoint common_prefix (a b : list ascii) : list ascii :=
  match a, b with
  | x :: a', y :: b' => if Ascii.eqb x y then x :: common_prefix a' b' else []
  | _, _ => []
  end.

(** [textwrap.dedent]: whitespace-only lines are emptied, then the longest
    common leading whitespace of the other lines is removed. *)
Definition dedent (s : list ascii) : list ascii :=
  let ls := map (fun l => if forallb is_blank_char l then [] else l) (split_lines s) in
  let indents := map leading_blanks (filter (fun l => negb (forallb is_blank_char l)) ls) in
  let margin := match indents with
                | [] => []
                | i :: is => fold_left common_prefix is i
                end in
  join_lines (map (fun l => if is_prefix margin l then skipn (List.length margin) l else l) ls).

Definition is_space_char (c : ascii) : bool :=
  let n := nat_of_ascii c in Nat.eqb n 32 || (Nat.leb 9 n && Nat.leb n 13).

Fixpoint lstrip (s : list ascii) : list ascii :=
  match s with
  | c :: s' => if is_space_char c then lstrip s' else s
  | [] => []
  end.

(** [str.strip()]. *)
Definition py_strip (s : list ascii) : list ascii := rev (lstrip (rev (lstrip s))).

(** [replace(string, replacements, strip)], the replacements given in the
    dict's insertion order, for keys that the regular expression matches
    literally and replacements without backslashes (see [sub_word]). *)
Definition replace (s : string) (replacements : list (string * string)) (strip : bool) : string :=
  let output := dedent (list_ascii_of_string s) in
  let output := if strip then py_strip output else output in
  string_of_list_ascii
    (fold_left (fun out '(from_, to_) =>
                  sub_word (list_ascii_of_string from_) (list_ascii_of_string to_) out)
               replacements output).

Open Scope Z_scope.

(* ------------------------------------------------------------------------- *)
(** ** Iterator helpers ([skipiter]) *)

(** [skipiter(iterable, num_skip)], consumed to the end over a finite
    iterable: after [assert num_skip > 0], the loop yields [next(it)] and
    then discards [num_skip - 1] values.  The [StopIteration] of an
    exhausted [next(it)] ends the generator (the consuming [for] loop stops),
    as in the Python 3 versions before 3.7 this script was written for (from
    3.7 on, PEP 479 turns it into a RuntimeError); [fuel] bounds the loop by
    the length of the iterable. *)
Fixpoint skip_loop {A : Type} (fuel : nat) (num_skip : Z) (it : list A) : list A :=
  match fuel with
  | O => []
  | S f =>
      match it with
      | [] => []
      | value :: it' => value :: skip_loop f num_skip (skipn (Z.to_nat (num_skip - 1)) it')
      end
  end.

Definition skipiter {A : Type} (iterable : list A) (num_skip : Z) : list A * option error :=
  if negb (0 <? num_skip) then ([], Some AssertionError)
  else (skip_loop (List.length iterable) num_skip iterable, None).

(* ------------------------------------------------------------------------- *)
(** ** Rent estimate and tax years ([main]) *)

(** [int(x)] of a Decimal: truncation towards zero. *)
Definition py_int (x : Q) : Z :=
  if Qle_bool 0 x then Qfloor x else - Qfloor (- x).

(** [rent_amount = (int(annual_salary / rent_divisor) / rent_increment)
    * rent_increment]: the [int] is converted exactly to a Decimal for the
    division. *)
Definition rent_amount (annual_salary rent_divisor rent_increment : Q) : Q :=
  (inject_Z (py_int (annual_salary ⊘ rent_divisor)) ⊘ rent_increment) ⊗ rent_increment.

(** [str(n)] padded with zeros to [w] digits, as in ['%04d'] for [n >= 0]. *)
Definition zero_pad (w : nat) (n : Z) : string :=
  let s := string_of_Z n in
  (string_of_list_ascii (repeat "0"%char (w - String.length s)) ++ s)%string.

(** [str(date)]: the ISO format [YYYY-MM-DD]. *)
Definition date_str (d : date) : string :=
  (zero_pad 4 (year d) ++ "-" ++ zero_pad 2 (month d) ++ "-" ++ zero_pad 2 (day d))%string.

(** [str(D('17000'))] for the limits of [retirement_limits], which are all
    written as integers (exponent 0): their digits. *)
Definition str_limit (limit : Q) : string := string_of_Z (Qnum limit).

Definition nl : string := String (ascii_of_nat 10) EmptyString.
Definition dq : string := String (ascii_of_nat 34) EmptyString.

(** ['\n'.join(lines)]. *)
Fixpoint unlines (ls : list string) : string :=
  match ls with
  | [] => EmptyString
  | [l] => l
  | l :: ls' => (l ++ nl ++ unlines ls')%string
  end.

(** The template string of [generate_tax_accounts], line by line. *)
Definition tax_accounts_template : string :=
  unlines
    ([ ""; "";
      "      ;; Open tax accounts for that year.";
      "      YYYY-MM-DD open Expenses:Taxes:YYEAR:CC:Federal:PreTax401k   DEFCCY";
      "      YYYY-MM-DD open Expenses:Taxes:YYEAR:CC:Medicare             CCY";
      "      YYYY-MM-DD open Expenses:Taxes:YYEAR:CC:Federal              CCY";
      "      YYYY-MM-DD open Expenses:Taxes:YYEAR:CC:CityNYC              CCY";
      "      YYYY-MM-DD open Expenses:Taxes:YYEAR:CC:SDI                  CCY";
      "      YYYY-MM-DD open Expenses:Taxes:YYEAR:CC:StateNY              CCY";
      "      YYYY-MM-DD open Expenses:Taxes:YYEAR:CC:SocSec               CCY";
      "";
      "      ;; Check that the tax amounts have been fully used.";
      "      YYYY-MM-DD balance Assets:CC:Federal:PreTax401k  0 DEFCCY";
      "";
      "      YYYY-MM-DD * " ++ dq ++ "Allowed contributions for one year" ++ dq;
      "        Income:CC:Federal:PreTax401k    -LIMIT DEFCCY";
      "        Assets:CC:Federal:PreTax401k     LIMIT DEFCCY";
      "";
      "    " ])%string.

(** [generate_tax_accounts(year)], up to the text handed to [parse]: the
    dict of replacements is evaluated first, [datetime.date(year, 1, 1)]
    (ValueError outside [1 <= year <= 9999]) and then
    [retirement_limits[year]] (KeyError). *)
Definition generate_tax_accounts (year : Z) : result string :=
  if negb ((1 <=? year) && (year <=? 9999)) then Err ValueError
  else match retirement_limit year with
       | None => Err KeyError
       | Some limit =>
           Ok (replace tax_accounts_template
                 [("YYYY-MM-DD", date_str (mkdate year 1 1));
                  ("YEAR", string_of_Z year);
                  ("YYEAR", "Y" ++ string_of_Z year);
                  ("LIMIT", str_limit limit)]%string false)
       end.

(** [taxes = [(year, generate_tax_accounts(year)) for year in
    range(date_begin.year, date_end.year)]]: the first exception ends the
    comprehension. *)
Fixpoint tax_loop (years : list Z) : result (list (Z * string)) :=
  match years with
  | [] => Ok []
  | y :: ys =>
      match generate_tax_accounts y with
      | Err e => Err e
      | Ok txt => match tax_loop ys with Ok l => Ok ((y, txt) :: l) | Err e => Err e end
      end
  end.

(** [range(a, b)]. *)
Definition py_range (a b : Z) : list Z :=
  map (fun k => a + Z.of_nat k) (seq 0 (Z.to_nat (b - a))).

Definition main_taxes (begin_year end_year : Z) : result (list (Z * string)) :=
  tax_loop (py_range begin_year end_year).

Open Scope Q_scope.

(* ------------------------------------------------------------------------- *)
(** ** Auxiliary notions for the statements *)

(** [pat] occurs somewhere in [s]. *)
Fixpoint occurs (pat s : list ascii) : bool :=
  is_prefix pat s || match s with [] => false | _ :: s' => occurs pat s' end.

(** The backslash character. *)
Definition backslash : ascii := ascii_of_nat 92.

(** A replacement value that [re.sub] copies literally: no backslash (a
    backslash starts an escape or a group reference, or raises re.error). *)
Definition plain_repl (to_ : string) : bool :=
  forallb (fun c => negb (Ascii.eqb c backslash)) (list_ascii_of_string to_).

(** A key of [replace] that the regular expression [\b key \b] matches
    literally: not empty and without any regular-expression metacharacter. *)
Definition plain_key (from_ : string) : bool :=
  negb (String.eqb from_ "")
  && forallb (fun c => negb (existsb (Ascii.eqb c)
                               (backslash :: list_ascii_of_string ".^$*+?{}[]|()")))
       (list_ascii_of_string from_).

(** Accounts that the transfer template receives unchanged: [replace]
    substitutes [ACCOUNT], then [ACCOUNT_OUT], then [AMOUNT], so a later key
    inside an earlier value would be substituted too. *)
Definition transfer_accounts_plain (account_mon account_out : string) : bool :=
  plain_repl account_mon && plain_repl account_out
  && negb (occurs (list_ascii_of_string "ACCOUNT_OUT") (list_ascii_of_string account_mon))
  && negb (occurs (list_ascii_of_string "AMOUNT") (list_ascii_of_string account_mon))
  && negb (occurs (list_ascii_of_string "AMOUNT") (list_ascii_of_string account_out)).

(** [n] biweekly dates from [d0]. *)
Definition dates_from (d0 : date) (n : nat) : list date :=
  map (fun k => add_days d0 (14 * Z.of_nat k)) (seq 0 n).

Fixpoint years_sorted (ds : list date) : bool :=
  match ds with
  | [] => true
  | d :: ds' => forallb (fun d' => Z.leb (year d) (year d')) ds' && years_sorted ds'
  end.

(** The contributions attributed to calendar year [y] by a run. *)
Definition year_retirement (y : Z) (prs : list payroll) : Q :=
  fold_right (fun pr acc => if Z.eqb (year (pay_date pr)) y then pay_retirement pr + acc else acc) 0 prs.

Definition year_socsec (y : Z) (prs : list payroll) : Q :=
  fold_right (fun pr acc => if Z.eqb (year (pay_date pr)) y then pay_socsec pr + acc else acc) 0 prs.

(** Sum of the numbers posted to account [acct] by a list of transactions. *)
Definition account_total (acct : string) (ts : list transaction) : Q :=
  fold_right (fun t acc =>
    fold_right (fun p a => if String.eqb (account p) acct then number p + a else a) acc
               (postings t)) 0 ts.

(** The loop state after a period, and before the period that follows the
    periods [pre]. *)
Definition state_after (pr : payroll) : pay_state :=
  mkpaystate (Some (pay_date pr)) (pay_cap_retirement pr) (pay_cap_socsec pr).

Definition state_before (st : pay_state) (pre : list payroll) : pay_state :=
  fold_left (fun _ pr => state_after pr) pre st.

(** An integral capacity between 0 and the largest limit. *)
Definition int_cap (q : Q) : Prop := exists k, q == inject_Z k /\ (0 <= k <= 18500)%Z.

(** What remains of the limit [L] of year [y] in state [st]. *)
Definition year_bound (st : pay_state) (y : Z) (L : Q) : Q :=
  match date_prev st with
  | Some p => if Z.eqb (year p) y then contrib_retirement st else L
  | None => L
  end.

(** The CCY sum of the payroll template for field values [fv]. *)
Definition template_ccy_sum (fv : field -> Q) (keep : bool) : Q :=
  fv FDeposit + (if keep then fv FRetirement else 0) - fv FGross - fv FLife + fv FLife
  + fv FDental + fv FMedical + fv FVision + fv FMedicare + fv FFederal + fv FState
  + fv FCity + fv FSdi + fv FSocsec.

(** [deposit] with [gross] and [fixed] passed in. *)
Definition deposit_from (g f r s : Q) : Q := Dec.sub 6 (Dec.sub 6 (Dec.sub 6 g r) f) s.

(** The CCY legs that do not depend on the capacities. *)
Definition ccy_fixed_sum (sal : Q) : Q :=
  - Dec.fmt2 (gross sal) - Dec.fmt2 lifeinsurance + Dec.fmt2 lifeinsurance + dental + medical
  + vision + Dec.fmt2 (medicare sal) + Dec.fmt2 (federal sal) + Dec.fmt2 (state sal)
  + Dec.fmt2 (city sal) + Dec.fmt2 sdi.

(** The CCY balance of a payroll transaction, with [gross], [fixed] and the
    fixed legs computed once. *)
Definition payroll_balanced_fast (g f c r s : Q) : bool :=
  Qeq_bool (Dec.fmt2 (deposit_from g f r s) + (if Qeq_bool r 0 then 0 else Dec.fmt2 r)
            + Dec.fmt2 s + c) 0.

Fixpoint iterate_caps (f : Q -> Q) (n : nat) (x : Q) : list Q :=
  match n with O => [x] | S n' => x :: iterate_caps f n' (f x) end.

Definition memQ (x : Q) (l : list Q) : bool := existsb (Dec.Qeqb_repr x) l.

(** The capacity after a period with uncapped contribution [u]. *)
Definition cap_step (u c : Q) : Q := c ⊖ py_min c u.

(** Candidate sets of the capacities reachable at salary [sal]. *)
Definition reach_retirement (sal : Q) : list Q :=
  let u := retirement_uncapped sal in
  flat_map (fun '(_, L) => iterate_caps (cap_step u) 20 L) retirement_limits.

Definition reach_socsec (sal : Q) : list Q :=
  iterate_caps (cap_step (socsec_uncapped sal)) 30 7000.

(** The candidate sets [R] and [S] contain the initial and reset
    capacities, are closed under a period with uncapped contributions [u]
    and [su], and every pair of their capacities passes [bal]. *)
Definition payroll_reach_check (u su : Q) (R S : list Q) (bal : Q -> Q -> bool) : bool :=
  memQ 0 R && memQ 0 S && memQ 7000 S
  && forallb (fun '(_, L) => memQ L R) retirement_limits
  && forallb (fun cr => memQ (cap_step u cr) R) R
  && forallb (fun cs => memQ (cap_step su cs) S) S
  && forallb (fun cr => forallb (fun cs => bal (py_min cr u) (py_min cs su)) S) R.


(** The state's capacities lie in the candidate sets. *)
Definition reach_inv (R S : list Q) (st : pay_state) : Prop :=
  In (contrib_retirement st) R /\ In (contrib_socsec st) S.


(** A date of the proleptic Gregorian calendar. *)
Definition valid_date (d : date) : Prop :=
  (1 <= month d <= 12 /\ 1 <= day d <= days_in_month (year d) (month d))%Z.

(** A value of [datetime.date]: a calendar date in years 1..9999. *)
Definition py_date (d : date) : Prop := valid_date d /\ (1 <= year d <= 9999)%Z.

(** An element of [real_account.postings] whose next day is a
    [datetime.date]. *)
Definition item_before_max (it : real_item) : Prop :=
  match it with
  | RPosting d _ => valid_date d /\ date_ltb d date_max = true
  | RDirective _ => True
  end.

(** Days of the months before month [k + 1]. *)
Definition month_sum (y : Z) (k : nat) : Z :=
  fold_right Z.add 0%Z (map (fun m => days_in_month y (Z.of_nat m)) (seq 1 k)).

(** Days before January 1st of year [y] in [toordinal]. *)
Definition year_base (y : Z) : Z :=
  ((y - 1) * 365 + (y - 1) / 4 - (y - 1) / 100 + (y - 1) / 400)%Z.

Definition leap01 (y : Z) : Z := if is_leap y then 1%Z else 0%Z.

(* ========================================================================= *)
(** * Proofs *)

(** ** Decimal rounding *)

Module DecFacts.
Import Dec.

Lemma pow10_pos e : 0 < pow10 e.
Proof. apply Qpower_0_lt. reflexivity. Qed.

Lemma pow10_Z (z : Z) : (0 <= z)%Z -> pow10 z == inject_Z (10 ^ z).
Proof. intros H. unfold pow10. rewrite Zpower_Qpower by exact H. reflexivity. Qed.

Lemma inject_Z_nonneg (z : Z) : (0 <= z)%Z -> 0 <= inject_Z z.
Proof. intros H. unfold Qle; simpl. lia. Qed.

Lemma round_half_even_nonneg y : 0 <= y -> (0 <= round_half_even y)%Z.
Proof.
  intros H. unfold round_half_even.
  assert (Hf : (0 <= Qfloor y)%Z).
  { change 0%Z with (Qfloor 0). apply Qfloor_resp_le. exact H. }
  destruct (Qcompare _ _); [destruct (Z.even _)|..]; lia.
Qed.

Lemma round_half_even_comp y y' : y == y' -> round_half_even y = round_half_even y'.
Proof.
  intros H. unfold round_half_even.
  assert (E : Qfloor y = Qfloor y') by (apply Qfloor_comp; exact H).
  rewrite E.
  replace (y - inject_Z (Qfloor y') ?= 1 # 2) with (y' - inject_Z (Qfloor y') ?= 1 # 2).
  - reflexivity.
  - apply Qcompare_comp; [rewrite H; reflexivity | reflexivity].
Qed.

Lemma round_half_even_Z z : round_half_even (inject_Z z) = z.
Proof.
  unfold round_half_even. rewrite Qfloor_Z.
  replace (inject_Z z - inject_Z z ?= 1 # 2) with (0 ?= 1 # 2).
  - reflexivity.
  - apply Qcompare_comp; [ring | reflexivity].
Qed.

Lemma round_prec_nonneg prec x : 0 <= x -> 0 <= round_prec prec x.
Proof.
  intros H. unfold round_prec. destruct (Qeq_bool x 0); [apply Qle_refl|].
  apply Qmult_le_0_compat.
  - apply inject_Z_nonneg, round_half_even_nonneg.
    apply Qmult_le_0_compat; [exact H | apply Qlt_le_weak, pow10_pos].
  - apply Qlt_le_weak, pow10_pos.
Qed.

Lemma ndigits_from_S f n k pw :
  ndigits_from (S f) n k pw
  = (if n <? pw then k else ndigits_from f n (k + 1) (pw * 10))%Z.
Proof. reflexivity. Qed.

Lemma ndigits_from_ge fuel n k pw : (k <= ndigits_from fuel n k pw)%Z.
Proof.
  revert k pw. induction fuel as [|f IH]; intros k pw; [simpl; lia|].
  rewrite ndigits_from_S. destruct (n <? pw)%Z; [lia|]. specialize (IH (k + 1)%Z (pw * 10)%Z). lia.
Qed.

Lemma ndigits_from_lower fuel n k pw :
  (1 <= k)%Z -> pw = (10 ^ k)%Z -> (10 ^ (k - 1) <= n)%Z ->
  (10 ^ (ndigits_from fuel n k pw - 1) <= n)%Z.
Proof.
  revert k pw. induction fuel as [|f IH]; intros k pw Hk Hpw Hn; [exact Hn|].
  rewrite ndigits_from_S. destruct (Z.ltb_spec n pw) as [Hlt|Hge]; [exact Hn|].
  apply IH; [lia | rewrite Hpw, Z.pow_add_r by lia; reflexivity |].
  replace (k + 1 - 1)%Z with k by lia. lia.
Qed.

Lemma ndigits_from_upper fuel n k pw :
  (0 <= k)%Z -> pw = (10 ^ k)%Z -> (n < 10 ^ (k + Z.of_nat fuel))%Z ->
  (n < 10 ^ ndigits_from fuel n k pw)%Z.
Proof.
  revert k pw. induction fuel as [|f IH]; intros k pw Hk Hpw Hn.
  - simpl in Hn |- *. rewrite Z.add_0_r in Hn. exact Hn.
  - rewrite ndigits_from_S. destruct (Z.ltb_spec n pw) as [Hlt|Hge]; [lia|].
    apply IH; [lia | rewrite Hpw, Z.pow_add_r by lia; reflexivity |].
    replace (k + 1 + Z.of_nat f)%Z with (k + Z.of_nat (S f))%Z by lia. exact Hn.
Qed.

Lemma ndigits_lower p : (10 ^ (ndigits p - 1) <= Zpos p)%Z.
Proof. apply ndigits_from_lower; [lia | reflexivity | simpl; lia]. Qed.

Lemma ndigits_upper p : (Zpos p < 10 ^ ndigits p)%Z.
Proof.
  apply ndigits_from_upper; [lia | reflexivity |].
  rewrite positive_nat_Z.
  pose proof (Pos.size_gt p) as H.
  apply (Z.lt_le_trans _ (2 ^ Zpos (Pos.size p))).
  - rewrite <- Pos2Z.inj_pow. exact H.
  - apply (Z.le_trans _ (10 ^ Zpos (Pos.size p))).
    + apply Z.pow_le_mono_l. lia.
    + apply Z.pow_le_mono_r; lia.
Qed.

Lemma ndigits_pos p : (1 <= ndigits p)%Z.
Proof. apply ndigits_from_ge. Qed.

Lemma ten_nonzero : ~ inject_Z 10 == 0.
Proof. discriminate. Qed.

Lemma adjusted_lower y : 0 < y -> pow10 (adjusted y) <= y.
Proof.
  destruct y as [n d]. intros Hy.
  assert (Hn : (0 < n)%Z) by (unfold Qlt in Hy; simpl in Hy; lia).
  unfold adjusted. cbn [Qnum Qden].
  destruct (Qle_bool _ _) eqn:E; [apply Qle_bool_iff; exact E|].
  pose proof (ndigits_lower (Z.to_pos n)) as Hl. rewrite Z2Pos.id in Hl by exact Hn.
  pose proof (ndigits_upper d) as Hu.
  pose proof (ndigits_pos (Z.to_pos n)). pose proof (ndigits_pos d).
  set (dn := ndigits (Z.to_pos n)) in *. set (dd := ndigits d) in *.
  replace (dn - dd - 1)%Z with ((dn - 1) - dd)%Z by lia.
  unfold pow10. rewrite Qpower_minus by exact ten_nonzero.
  rewrite <- !Zpower_Qpower by lia.
  assert (HB : (0 < 10 ^ dd)%Z) by (apply Z.pow_pos_nonneg; lia).
  rewrite <- (Z2Pos.id (10 ^ dd)) by exact HB.
  rewrite <- Qmake_Qdiv.
  unfold Qle; cbn [Qnum Qden]. rewrite Z2Pos.id by exact HB.
  nia.
Qed.

Lemma pow10_plus a b : pow10 (a + b) == pow10 a * pow10 b.
Proof. unfold pow10. apply Qpower_plus, ten_nonzero. Qed.

(** A value with at most [prec] significant digits is its own rounding. *)
Lemma round_prec_exact prec j k x :
  (0 <= j)%Z -> (Z.abs k < 10 ^ prec)%Z -> x == inject_Z k * pow10 (- j) ->
  round_prec prec x == x.
Proof.
  intros Hj Hk Hx. unfold round_prec.
  destruct (Qeq_bool x 0) eqn:E.
  { apply Qeq_bool_iff in E. rewrite E. reflexivity. }
  apply Qeq_bool_neq in E.
  assert (Hk0 : k <> 0%Z).
  { intros ->. apply E. rewrite Hx. ring. }
  assert (Hp : (0 <= prec)%Z).
  { destruct (Z.le_gt_cases 0 prec) as [|Hn]; [assumption|].
    rewrite Z.pow_neg_r in Hk by lia. lia. }
  assert (Habs : Qabs x == inject_Z (Z.abs k) * pow10 (- j)).
  { rewrite Hx, Qabs_Qmult, (Qabs_pos (pow10 _)) by (apply Qlt_le_weak, pow10_pos).
    destruct k; reflexivity. }
  set (A := adjusted (Qabs x)).
  assert (HA : pow10 A <= Qabs x).
  { apply adjusted_lower. rewrite Habs. apply Qmult_lt_0_compat; [|apply pow10_pos].
    unfold Qlt; simpl. lia. }
  assert (HAlt : (A < prec - j)%Z).
  { apply (Qpower_lt_compat_l_inv (inject_Z 10)); [|reflexivity].
    change (pow10 A < pow10 (prec - j)).
    apply (Qle_lt_trans _ _ _ HA). rewrite Habs.
    replace (prec - j)%Z with (prec + - j)%Z by lia. rewrite pow10_plus.
    apply Qmult_lt_r; [apply pow10_pos|].
    rewrite pow10_Z by exact Hp. rewrite <- Zlt_Qlt. exact Hk. }
  set (e := (A + 1 - prec)%Z).
  assert (Hy : x * pow10 (- e) == inject_Z (k * 10 ^ (- j + - e))).
  { rewrite Hx, <- Qmult_assoc, <- pow10_plus, pow10_Z by lia.
    rewrite inject_Z_mult. reflexivity. }
  rewrite (round_half_even_comp _ _ Hy), round_half_even_Z.
  rewrite inject_Z_mult, <- pow10_Z by lia.
  rewrite <- Qmult_assoc, <- pow10_plus, Hx.
  replace (- j + - e + e)%Z with (- j)%Z by lia. reflexivity.
Qed.

End DecFacts.
Import DecFacts.
Import Dec.

(** ** Two-leg transactions *)

Lemma two_legs_balanced d py nr a1 a2 x :
  balanced (mktxn d py nr [mkposting a1 (- x) "CCY"; mkposting a2 x "CCY"]) = true.
Proof.
  unfold balanced, currency_sum. simpl.
  rewrite !andb_true_iff; repeat split; apply Qeq_bool_iff; ring.
Qed.

Lemma fmt2_cents x : exists z, Dec.fmt2 x == inject_Z z * (1 # 100).
Proof. exists (Dec.round_half_even (x * 100)). reflexivity. Qed.

Lemma periodic_loop_length ps ns af at_ g pc nc n ds :
  List.length (periodic_loop ps ns af at_ g pc nc n ds) = List.length ds.
Proof. revert n. induction ds; intros n; simpl; auto. Qed.

Lemma periodic_loop_nth ps ns af at_ g pc nc n ds i :
  nth_error (periodic_loop ps ns af at_ g pc nc n ds) i
  = option_map (periodic_txn ps ns af at_ g pc nc (n + i)) (nth_error ds i).
Proof.
  revert n i. induction ds as [|d ds IH]; intros n [|i]; simpl; auto.
  - rewrite Nat.add_0_r. reflexivity.
  - rewrite IH. rewrite Nat.add_succ_r. reflexivity.
Qed.

(** ** Template substitution *)

Lemma sub_word_aux_absent fuel pat rep b s :
  occurs pat s = false -> sub_word_aux fuel pat rep b s = s.
Proof.
  revert fuel b. induction s as [|c s IH]; intros [|f] b Hocc; simpl; auto.
  simpl in Hocc. apply orb_false_iff in Hocc as [Hp Hs].
  rewrite Hp. simpl. f_equal. apply IH, Hs.
Qed.

Lemma sub_word_absent pat rep s : occurs pat s = false -> sub_word pat rep s = s.
Proof. intros H. unfold sub_word. destruct pat; [reflexivity|]. apply sub_word_aux_absent, H. Qed.

(** C9, counterexample: a template whose placeholder [YYYY-MM-DD] has no
    replacement is returned with the placeholder in place; [replace] does
    not fail. *)
Lemma replace_missing_placeholder_no_error :
  replace "YYYY-MM-DD open Assets:CC:Investment:Cash    CCY"
          [("ACCOUNT"%string, "Assets:CC:Bank1:Checking"%string)] false
  = "YYYY-MM-DD open Assets:CC:Investment:Cash    CCY"%string.
Proof. vm_compute. reflexivity. Qed.

(** C9, amended: a missing placeholder is no error.  For keys that the
    regular expression matches literally ([plain_key]) and replacements
    without backslashes ([plain_repl]), [replace] produces its output, and
    keys that occur nowhere in the dedented template leave it unchanged, so
    placeholders without a replacement stay in the text. *)
Theorem replace_without_matches (s : string) (replacements : list (string * string)) :
  forallb (fun '(from_, to_) =>
             plain_key from_ && plain_repl to_
             && negb (occurs (list_ascii_of_string from_) (dedent (list_ascii_of_string s))))
          replacements = true ->
  replace s replacements false = string_of_list_ascii (dedent (list_ascii_of_string s)).
Proof.
  unfold replace.
  generalize (dedent (list_ascii_of_string s)) as out. intros out.
  induction replacements as [|[f t] reps IH]; intros H; simpl; auto.
  simpl in H. apply andb_true_iff in H as [Hf Hr].
  apply andb_true_iff in Hf as [_ Hf].
  rewrite sub_word_absent by (apply negb_true_iff, Hf).
  apply IH, Hr.
Qed.

Lemma replace_without_matches_witness :
  replace "YYYY-MM-DD open Assets:CC:Investment:Cash    CCY"
          [("ACCOUNT"%string, "Assets:CC:Bank1:Checking"%string)] false
  = string_of_list_ascii (dedent (list_ascii_of_string
                                    "YYYY-MM-DD open Assets:CC:Investment:Cash    CCY")).
Proof.
  apply replace_without_matches. vm_compute. reflexivity.
Defined.

(** ** Cadence generators *)

(** C8, the defect: [delay_dates] with minimum 5 and maximum 3 over an
    empty upstream sequence ends normally, without any error; unlike
    [date_seq] it does not check its range. *)
Lemma delay_dates_empty_no_error :
  delay_dates (fun _ => 0%Z) [] 5 3 = ([], None).
Proof. reflexivity. Qed.

(** C8: [date_seq] with [days_min > days_max] raises
    AssertionError before yielding any date; [delay_dates] has no check of
    its own: with [min > max] it raises ValueError (from [random.randint])
    at the first upstream date, before yielding any date, and over an empty
    upstream it yields nothing and raises nothing. *)
Theorem cadence_invalid_range :
  (forall rng date_begin date_end days_min days_max,
     (days_max < days_min)%Z ->
     date_seq rng date_begin date_end days_min days_max = ([], Some AssertionError)) /\
  (forall rng d ds dmin dmax,
     (dmax < dmin)%Z -> delay_dates rng (d :: ds) dmin dmax = ([], Some ValueError)) /\
  (forall rng dmin dmax, delay_dates rng [] dmin dmax = ([], None)).
Proof.
  split; [|split].
  - intros rng b e mn mx H. unfold date_seq.
    destruct (0 <? mn)%Z; simpl; [|reflexivity].
    destruct (Z.leb_spec mn mx); [lia | reflexivity].
  - intros rng d ds mn mx H. unfold delay_dates. simpl. unfold randint.
    destruct (Z.leb_spec (mx + 1 - mn) 0); [reflexivity | lia].
  - reflexivity.
Qed.

Lemma cadence_invalid_range_witness :
  (3 < 5)%Z /\
  date_seq (fun _ => 0%Z) (mkdate 2012 1 1) (mkdate 2016 1 1) 5 3 = ([], Some AssertionError) /\
  delay_dates (fun _ => 0%Z) [mkdate 2012 1 1] 5 3 = ([], Some ValueError).
Proof.
  split; [lia|]. split.
  - apply (proj1 cadence_invalid_range). lia.
  - apply (proj1 (proj2 cadence_invalid_range)). lia.
Defined.

(** ** Final validation *)

Lemma check_loop_ok b items :
  check_loop b items = Ok tt <-> forallb all_positive (running_balances b items) = true.
Proof.
  revert b. induction items as [|[d p|d] items IH]; intros b; simpl.
  - split; reflexivity.
  - destruct (all_positive (add_position b p)) eqn:E; simpl.
    + apply IH.
    + split; discriminate.
  - apply IH.
Qed.

Lemma check_loop_err b items e :
  check_loop b items = Err e -> e = AssertionError.
Proof.
  revert b. induction items as [|[d p|d] items IH]; intros b; simpl.
  - discriminate.
  - destruct (all_positive _); [apply IH | congruence].
  - apply IH.
Qed.

Lemma check_loop_total b items :
  check_loop b items = Ok tt \/ check_loop b items = Err AssertionError.
Proof.
  destruct (check_loop b items) as [[]|e] eqn:E; [left; reflexivity|].
  right. rewrite (check_loop_err _ _ _ E). reflexivity.
Qed.

(** C6: the validation of the loaded entries succeeds exactly when, for
    every monitored account, every currency of every running inventory
    (after each posting of the account, replayed in order from an empty
    inventory) is strictly positive; otherwise it fails with
    AssertionError, which happens exactly when some running amount is at
    most zero. *)
Theorem check_accounts_spec (loaded : list directive) (accts : list string) :
  (check_accounts loaded accts = Ok tt <->
   Forall (fun a => Forall (fun inv => Forall (fun '(_, n) => 0 < n) (get_amounts inv))
                           (running_balances [] (realize_postings loaded a))) accts) /\
  (check_accounts loaded accts = Err AssertionError <->
   Exists (fun a => Exists (fun inv => Exists (fun '(_, n) => n <= 0) (get_amounts inv))
                           (running_balances [] (realize_postings loaded a))) accts).
Proof.
  assert (Hpos : forall inv, all_positive inv = true <->
                 Forall (fun '(_, n) => 0 < n) (get_amounts inv)).
  { intros inv. unfold all_positive. rewrite forallb_forall, Forall_forall.
    split; intros H [c n] Hin; specialize (H _ Hin); simpl in *.
    - unfold Qltb in H. apply negb_true_iff in H.
      apply Qnot_le_lt. intros Hle. apply Qle_bool_iff in Hle. congruence.
    - unfold Qltb. apply negb_true_iff. destruct (Qle_bool n 0) eqn:E; [|reflexivity].
      apply Qle_bool_iff in E. exfalso. apply (Qlt_not_le _ _ H E). }
  assert (Hacc : forall a, check_non_negative loaded a = Ok tt <->
                 Forall (fun inv => Forall (fun '(_, n) => 0 < n) (get_amounts inv))
                        (running_balances [] (realize_postings loaded a))).
  { intros a. unfold check_non_negative. rewrite check_loop_ok, forallb_forall, Forall_forall.
    split; intros H inv Hin; apply Hpos; apply H; exact Hin. }
  assert (Hneg : forall inv : inventory,
             ~ Forall (fun '(_, n) => 0 < n) (get_amounts inv) <->
             Exists (fun '(_, n) => n <= 0) (get_amounts inv)).
  { intros inv. induction (get_amounts inv) as [|[c n] l IH].
    - split; [intros H; exfalso; apply H; constructor | intros H; inversion H].
    - rewrite Forall_cons_iff, Exists_cons. split.
      + intros H. destruct (Qlt_le_dec 0 n) as [Hl|Hl]; [|left; exact Hl].
        right. apply IH. intros Hf. apply H. split; assumption.
      + intros [Hl|Hr] [H1 H2]; [apply (Qlt_not_le _ _ H1 Hl)|]. apply IH in Hr. contradiction. }
  induction accts as [|a accts IH]; simpl.
  - split; split; intros H; first [reflexivity | constructor | discriminate | inversion H].
  - destruct IH as [IH1 IH2].
    destruct (check_loop_total [] (realize_postings loaded a)) as [E|E];
      fold (check_non_negative loaded a) in E; rewrite E.
    + pose proof (proj1 (Hacc a) E) as Ha.
      rewrite Forall_cons_iff, Exists_cons, IH1, IH2. split; [tauto|].
      split; [tauto|]. intros [Hx|Hx]; [|exact Hx]. exfalso.
      apply Exists_exists in Hx as [inv [Hin Hx]].
      rewrite Forall_forall in Ha. apply (proj2 (Hneg inv)) in Hx. apply Hx, Ha, Hin.
    + assert (Hna : ~ Forall (fun inv => Forall (fun '(_, n) => 0 < n) (get_amounts inv))
                     (running_balances [] (realize_postings loaded a))).
      { intros Hf. apply Hacc in Hf. congruence. }
      split.
      * split; [discriminate|]. intros Hf. apply Forall_cons_iff in Hf. tauto.
      * split; [intros _; left|reflexivity].
        clear -Hna Hneg. induction (running_balances [] (realize_postings loaded a)) as [|i l IHl].
        -- exfalso. apply Hna. constructor.
        -- rewrite Forall_cons_iff in Hna. apply Exists_cons.
           assert (Hd : forall x : string * Q,
                      {(fun '(_, n) => 0 < n) x} + {~ (fun '(_, n) => 0 < n) x}).
           { intros [c n]. destruct (Qlt_le_dec 0 n) as [H|H]; [left; exact H|right].
             intros H'. apply (Qlt_not_le _ _ H' H). }
           destruct (Forall_dec _ Hd (get_amounts i)) as [Hi|Hi].
           ++ right. apply IHl. intros Hl. apply Hna. split; assumption.
           ++ left. apply Hneg, Hi.
Qed.



(** ** The payroll engine *)

(** C3, the defect: at an annual salary of 50000 the first payroll
    transaction of 2012 does not balance: its CCY legs sum to -0.01 (the
    deposit, computed at 6 significant digits and printed with 2 fractional
    digits, is one cent short). *)
Lemma payroll_unbalanced_at_salary_50000 :
  exists ts t,
    generate_employment_income "Employer" "Assets:CC:Bank1:Checking" "Assets:CC:Retirement"
      50000 [mkdate 2012 1 5] = Ok ts /\ ts = [t] /\
    currency_sum "CCY" (postings t) == - (1 # 100) /\ balanced t = false.
Proof.
  do 2 eexists. split; [vm_compute; reflexivity|]. split; [reflexivity|].
  split; vm_compute; reflexivity.
Qed.

(** C5, counterexample: at the script's salary of 120000, the social
    security capacity of 2012 is exhausted before the last pay date of the
    year, and the payroll transaction of that date still has its SocSec leg,
    with the amount 0. *)
Lemma socsec_leg_present_with_zero :
  exists ts,
    generate_employment_income "Employer" "Assets:CC:Bank1:Checking" "Assets:CC:Retirement"
      120000 (dates_from (mkdate 2012 1 5) 26) = Ok ts /\
    existsb (fun t => existsb (fun p => String.eqb (account p) "Expenses:Taxes:Y2012:CC:SocSec"
                                        && Qeq_bool (number p) 0) (postings t)) ts = true.
Proof. eexists. split; [vm_compute; reflexivity|]. vm_compute. reflexivity. Qed.

(** C10, counterexample: the social security contributions of 2012 exceed
    7000.  At a salary of 200000 the capacity is decremented with 28-digit
    rounding and the contributions computed in the run sum to slightly more
    than 7000; at the script's salary of 120000 the SocSec legs posted in
    2012 (each printed with 2 fractional digits) sum to 7000.04. *)
Lemma socsec_year_total_exceeds_7000 :
  (exists prs,
     pay_run "Employer" "Assets:CC:Bank1:Checking" "Assets:CC:Retirement" 200000 init_pay_state
       (dates_from (mkdate 2012 1 5) 26) = Ok prs /\
     Qltb 7000 (year_socsec 2012 prs) = true) /\
  (exists ts,
     generate_employment_income "Employer" "Assets:CC:Bank1:Checking" "Assets:CC:Retirement"
       120000 (dates_from (mkdate 2012 1 5) 26) = Ok ts /\
     account_total "Expenses:Taxes:Y2012:CC:SocSec" ts == 700004 # 100).
Proof.
  split; eexists; (split; [vm_compute; reflexivity|]); vm_compute; reflexivity.
Qed.

Section RunFacts.
Variables (e a r : string) (sal : Q).

Lemma pay_step_state st d st' pr :
  pay_step e a r sal st d = Ok (st', pr) -> st' = state_after pr /\ pay_date pr = d.
Proof.
  unfold pay_step. destruct (capacities st d) as [[cr cs]|]; [|discriminate].
  intros H. inversion H. split; reflexivity.
Qed.

Lemma pay_run_split st ds prs pre pr post :
  pay_run e a r sal st ds = Ok prs -> prs = pre ++ pr :: post ->
  pay_step e a r sal (state_before st pre) (pay_date pr) = Ok (state_after pr, pr).
Proof.
  intros Hrun ->. revert st pre Hrun. induction ds as [|d ds IH]; intros st pre Hrun; simpl in Hrun.
  - inversion Hrun. destruct pre; discriminate.
  - destruct (pay_step e a r sal st d) as [[st' pr0]|] eqn:Hs; [|discriminate].
    destruct (pay_run e a r sal st' ds) as [prs'|] eqn:Hr; [|discriminate].
    destruct (pay_step_state _ _ _ _ Hs) as [-> Hd].
    destruct pre as [|p0 pre]; simpl in Hrun; inversion Hrun; subst.
    + exact Hs.
    + apply (IH _ _ Hr).
Qed.

End RunFacts.




Lemma py_min_le a b : py_min a b <= a.
Proof.
  unfold py_min. destruct (Qle_bool a b) eqn:E; [apply Qle_refl|].
  apply Qlt_le_weak, Qnot_le_lt. intros H. apply Qle_bool_iff in H. congruence.
Qed.

Lemma py_min_cases a b : (py_min a b = a /\ a <= b) \/ (py_min a b = b /\ b < a).
Proof.
  unfold py_min. destruct (Qle_bool a b) eqn:E.
  - left. split; [reflexivity | apply Qle_bool_iff, E].
  - right. split; [reflexivity|]. apply Qnot_le_lt. intros H. apply Qle_bool_iff in H. congruence.
Qed.

Lemma sub_cap_nonneg c x : 0 <= c ⊖ py_min c x.
Proof.
  unfold sub. apply round_prec_nonneg. pose proof (py_min_le c x).
  apply (Qplus_le_l _ _ (py_min c x)). ring_simplify. exact H.
Qed.

Section StepFacts.
Variables (e a r : string) (sal : Q).

Lemma capacities_cases st d cr cs :
  capacities st d = Ok (cr, cs) ->
  (new_year (date_prev st) d = true /\ retirement_limit (year d) = Some cr /\ cs = 7000) \/
  (new_year (date_prev st) d = false /\ cr = contrib_retirement st /\ cs = contrib_socsec st).
Proof.
  unfold capacities. destruct (new_year (date_prev st) d).
  - destruct (retirement_limit (year d)) as [L|]; [|discriminate].
    intros H; inversion H; subst. left. auto.
  - intros H; inversion H; subst. right. auto.
Qed.

Lemma pay_step_spec st d st' pr :
  pay_step e a r sal st d = Ok (st', pr) ->
  exists cr cs, capacities st d = Ok (cr, cs) /\
    pay_retirement pr = py_min cr (retirement_uncapped sal) /\
    pay_cap_retirement pr = cr ⊖ pay_retirement pr /\
    pay_socsec pr = py_min cs (socsec_uncapped sal) /\
    pay_cap_socsec pr = cs ⊖ pay_socsec pr /\
    pay_date pr = d /\
    pay_txn pr = payroll_txn e a r sal d (pay_retirement pr) (pay_socsec pr).
Proof.
  unfold pay_step. destruct (capacities st d) as [[cr cs]|] eqn:E; [|discriminate].
  intros H. inversion H; subst. exists cr, cs. simpl. repeat split; reflexivity.
Qed.

End StepFacts.

(** C10, amended. *)
Theorem socsec_capacity_per_period (employer account_deposit account_retirement : string)
  (annual_salary : Q) (ds : list date) (prs pre post : list payroll) (pr : payroll) :
  pay_run employer account_deposit account_retirement annual_salary init_pay_state ds = Ok prs ->
  prs = pre ++ pr :: post ->
  let st := state_before init_pay_state pre in
  let cs := if new_year (date_prev st) (pay_date pr) then 7000 else contrib_socsec st in
  pay_socsec pr = py_min cs (socsec_uncapped annual_salary) /\
  pay_cap_socsec pr = cs ⊖ pay_socsec pr /\
  0 <= pay_cap_socsec pr.
Proof.
  intros Hrun Hsplit st cs.
  pose proof (pay_run_split _ _ _ _ _ _ _ _ _ _ Hrun Hsplit) as Hs. fold st in Hs.
  destruct (pay_step_spec _ _ _ _ _ _ _ _ Hs) as (cr & cs0 & Hc & Hr & Hcr & Hso & Hcs & Hd & Ht).
  assert (E : cs0 = cs).
  { unfold cs. destruct (capacities_cases _ _ _ _ Hc) as [(Hn & _ & ->)|(Hn & _ & ->)];
      rewrite Hn; reflexivity. }
  subst cs0. split; [exact Hso|]. split; [exact Hcs|].
  rewrite Hcs, Hso. apply sub_cap_nonneg.
Qed.

Lemma socsec_capacity_per_period_witness :
  exists prs pre pr post,
    pay_run "Employer" "Assets:CC:Bank1:Checking" "Assets:CC:Retirement" 120000 init_pay_state
      [mkdate 2012 1 5; mkdate 2012 1 19] = Ok prs /\
    prs = pre ++ pr :: post /\
    pay_socsec pr = py_min (contrib_socsec (state_before init_pay_state pre))
                      (socsec_uncapped 120000) /\
    0 <= pay_cap_socsec pr.
Proof.
  destruct (pay_run "Employer" "Assets:CC:Bank1:Checking" "Assets:CC:Retirement" 120000
              init_pay_state [mkdate 2012 1 5; mkdate 2012 1 19]) as [prs|err] eqn:E;
    pose proof E as E'; vm_compute in E'; [|discriminate E'].
  injection E' as E'. subst prs.
  match type of E with
  | _ = Ok [?x1; ?x2] =>
      exists [x1; x2], [x1], x2, [];
      pose proof (socsec_capacity_per_period _ _ _ _ _ _ [x1] [] x2 E eq_refl) as H
  end.
  split; [exact E|]. split; [reflexivity|].
  destruct H as (H1 & _ & H3).
  split; [|exact H3]. rewrite H1. vm_compute. reflexivity.
Defined.


Lemma retirement_limit_int y L : retirement_limit y = Some L -> int_cap L.
Proof.
  unfold retirement_limit, retirement_limits. simpl.
  repeat match goal with
  | |- (if ?c then _ else _) = _ -> _ => destruct c
  end;
  intros H; inversion H; subst; eexists; (split; [reflexivity | lia]).
Qed.

Lemma gross_nonneg sal : 0 <= sal -> 0 <= gross sal.
Proof.
  intros H. unfold gross, div. apply round_prec_nonneg.
  apply Qle_shift_div_l; [reflexivity|]. rewrite Qmult_0_l. exact H.
Qed.

Lemma retirement_uncapped_int sal :
  0 <= sal -> exists m, retirement_uncapped sal = inject_Z m /\ (0 <= m)%Z.
Proof.
  intros H. unfold retirement_uncapped. eexists. split; [reflexivity|].
  assert (Hx : 0 <= (gross sal ⊗ (1 # 4)) ⊘ 100).
  { unfold div, mul. apply round_prec_nonneg. apply Qle_shift_div_l; [reflexivity|].
    rewrite Qmult_0_l. apply round_prec_nonneg.
    apply Qmult_le_0_compat; [apply gross_nonneg, H | discriminate]. }
  pose proof (Qle_ceiling ((gross sal ⊗ (1 # 4)) ⊘ 100)) as Hc.
  assert (Hz : (0 <= Qceiling ((gross sal ⊗ (1 # 4)) ⊘ 100))%Z).
  { rewrite Zle_Qle. apply (Qle_trans _ _ _ Hx Hc). }
  lia.
Qed.

Lemma ten28 : (10 ^ 28 = 10000000000000000000000000000)%Z.
Proof. reflexivity. Qed.

Lemma retirement_step_exact sal cr :
  0 <= sal -> int_cap cr ->
  let ret := py_min cr (retirement_uncapped sal) in
  cr ⊖ ret == cr - ret /\ int_cap (cr ⊖ ret).
Proof.
  intros Hs [k [Hk Hkr]] ret.
  destruct (retirement_uncapped_int sal Hs) as [m [Hm Hm0]].
  assert (Hd : exists j, cr - ret == inject_Z j /\ (0 <= j <= 18500)%Z).
  { unfold ret. destruct (py_min_cases cr (retirement_uncapped sal)) as [[-> _]|[-> Hlt]].
    - exists 0%Z. split; [ring | lia].
    - rewrite Hm in Hlt |- *. rewrite Hk in Hlt. rewrite <- Zlt_Qlt in Hlt.
      exists (k - m)%Z. split; [rewrite Hk; unfold Qminus; rewrite <- Z.add_opp_r, inject_Z_plus, inject_Z_opp; reflexivity | lia]. }
  destruct Hd as [j [Hj Hjr]].
  assert (Hex : cr ⊖ ret == cr - ret).
  { unfold sub. apply (round_prec_exact _ 0 j); [lia | unfold default_prec; rewrite ten28; lia |].
    rewrite Hj. unfold pow10. simpl. ring. }
  split; [exact Hex|]. exists j. split; [rewrite Hex; exact Hj | exact Hjr].
Qed.

Section RunInvariants.
Variables (e a r : string) (sal : Q).

Lemma pay_run_dates st ds prs :
  pay_run e a r sal st ds = Ok prs -> map pay_date prs = ds.
Proof.
  revert st prs. induction ds as [|d ds IH]; intros st prs H; simpl in H.
  - inversion H. reflexivity.
  - destruct (pay_step e a r sal st d) as [[st' pr]|] eqn:Hs; [|discriminate].
    destruct (pay_run e a r sal st' ds) as [prs'|] eqn:Hr; [|discriminate].
    inversion H; subst. destruct (pay_step_state _ _ _ _ _ _ _ _ Hs) as [_ Hd].
    simpl. rewrite Hd, (IH _ _ Hr). reflexivity.
Qed.

Lemma capacity_int st d cr cs :
  int_cap (contrib_retirement st) -> capacities st d = Ok (cr, cs) -> int_cap cr.
Proof.
  intros Hi Hc. destruct (capacities_cases _ _ _ _ Hc) as [(_ & HL & _)|(_ & -> & _)].
  - apply (retirement_limit_int _ _ HL).
  - exact Hi.
Qed.

Lemma pay_run_int st ds prs :
  0 <= sal -> int_cap (contrib_retirement st) -> pay_run e a r sal st ds = Ok prs ->
  Forall (fun pr => int_cap (pay_cap_retirement pr)) prs.
Proof.
  intros Hs. revert st prs. induction ds as [|d ds IH]; intros st prs Hi H; simpl in H.
  - inversion H. constructor.
  - destruct (pay_step e a r sal st d) as [[st' pr]|] eqn:Hst; [|discriminate].
    destruct (pay_run e a r sal st' ds) as [prs'|] eqn:Hr; [|discriminate].
    inversion H; subst. destruct (pay_step_state _ _ _ _ _ _ _ _ Hst) as [-> _].
    destruct (pay_step_spec _ _ _ _ _ _ _ _ Hst) as (cr & cs & Hc & Hret & Hcr & _).
    assert (Hp : int_cap (pay_cap_retirement pr)).
    { rewrite Hcr, Hret. apply retirement_step_exact; [exact Hs|].
      apply (capacity_int _ _ _ _ Hi Hc). }
    constructor; [exact Hp|]. apply (IH (state_after pr) _ Hp Hr).
Qed.

Lemma year_retirement_other y st ds prs :
  pay_run e a r sal st ds = Ok prs -> Forall (fun d => (y < year d)%Z) ds ->
  year_retirement y prs = 0.
Proof.
  intros H. apply pay_run_dates in H. subst ds. induction prs as [|pr prs IH]; intros Hf.
  - reflexivity.
  - inversion Hf; subst. simpl. destruct (Z.eqb_spec (year (pay_date pr)) y); [lia|].
    apply IH. assumption.
Qed.


Lemma int_cap_nonneg q : int_cap q -> 0 <= q.
Proof. intros [k [Hk Hr]]. rewrite Hk. apply inject_Z_nonneg. lia. Qed.

Lemma year_sum_bound st ds prs y L :
  0 <= sal -> int_cap (contrib_retirement st) -> retirement_limit y = Some L ->
  years_sorted ds = true ->
  (forall p, date_prev st = Some p -> Forall (fun d => (year p <= year d)%Z) ds) ->
  pay_run e a r sal st ds = Ok prs ->
  year_retirement y prs <= year_bound st y L.
Proof.
  intros Hs. revert st prs. induction ds as [|d ds IH]; intros st prs Hi HL Hsort Hprev H;
    simpl in H.
  - inversion H; subst. simpl. unfold year_bound.
    pose proof (int_cap_nonneg _ Hi). pose proof (int_cap_nonneg _ (retirement_limit_int _ _ HL)).
    destruct (date_prev st) as [p|]; [destruct (Z.eqb (year p) y)|]; assumption.
  - destruct (pay_step e a r sal st d) as [[st' pr]|] eqn:Hst; [|discriminate].
    destruct (pay_run e a r sal st' ds) as [prs'|] eqn:Hr; [|discriminate].
    inversion H; subst. destruct (pay_step_state _ _ _ _ _ _ _ _ Hst) as [-> Hd].
    destruct (pay_step_spec _ _ _ _ _ _ _ _ Hst) as (cr & cs & Hc & Hret & Hcr & _).
    pose proof (capacity_int _ _ _ _ Hi Hc) as Hcri.
    destruct (retirement_step_exact sal cr Hs Hcri) as [Hex Hint].
    rewrite <- Hret, <- Hcr in Hex, Hint.
    simpl in Hsort. apply andb_true_iff in Hsort as [Hfirst Hsort].
    assert (IH' := IH (state_after pr) prs' Hint HL Hsort).
    assert (Hp' : forall p, date_prev (state_after pr) = Some p ->
                    Forall (fun d0 => (year p <= year d0)%Z) ds).
    { intros p Hp. simpl in Hp. inversion Hp; subst p. rewrite Hd.
      apply Forall_forall. intros x Hx. rewrite forallb_forall in Hfirst.
      apply Z.leb_le, Hfirst, Hx. }
    specialize (IH' Hp' Hr).
    unfold year_bound in IH'; simpl in IH'. rewrite Hd in IH'.
    simpl. rewrite Hd.
    destruct (Z.eqb_spec (year d) y) as [Hy|Hy].
    + (* a period of year [y]: it adds [retirement] and leaves [cr - retirement] *)
      assert (Hsum : pay_retirement pr + year_retirement y prs' <= cr).
      { rewrite Hex in IH'.
        apply (Qplus_le_r _ _ (pay_retirement pr)) in IH'.
        eapply Qle_trans; [exact IH'|]. ring_simplify. apply Qle_refl. }
      eapply Qle_trans; [exact Hsum|].
      destruct (capacities_cases _ _ _ _ Hc) as [(Hn & HLd & _)|(Hn & -> & _)].
      * rewrite Hy, HL in HLd. inversion HLd; subst cr.
        unfold year_bound. destruct (date_prev st) as [p|] eqn:Ep; [|apply Qle_refl].
        unfold new_year in Hn. rewrite ?Ep in Hn.
        destruct (Z.eqb_spec (year p) y); [|apply Qle_refl].
        subst y. rewrite e0, Z.eqb_refl in Hn. discriminate.
      * unfold year_bound. unfold new_year in Hn.
        destruct (date_prev st) as [p|]; [|discriminate].
        apply negb_false_iff, Z.eqb_eq in Hn. rewrite Hn, Hy, Z.eqb_refl. apply Qle_refl.
    + unfold year_bound. destruct (date_prev st) as [p|] eqn:Ep; [|exact IH'].
      destruct (Z.eqb_spec (year p) y) as [Hpy|Hpy]; [|exact IH'].
      specialize (Hprev p eq_refl). inversion Hprev as [|x l Hpd Hrest]; subst.
      rewrite (year_retirement_other (year p) _ _ _ Hr).
      * apply int_cap_nonneg, Hi.
      * apply Forall_forall. intros x Hx. rewrite forallb_forall in Hfirst.
        specialize (Hfirst x Hx). apply Z.leb_le in Hfirst. lia.
Qed.

End RunInvariants.

Lemma state_before_cases st pre :
  state_before st pre = st \/ exists p, In p pre /\ state_before st pre = state_after p.
Proof.
  unfold state_before. revert st. induction pre as [|p pre IH]; intros st; simpl.
  - left. reflexivity.
  - right. destruct (IH (state_after p)) as [E|[q [Hq E]]].
    + exists p. split; [left; reflexivity | exact E].
    + exists q. split; [right; exact Hq | exact E].
Qed.

(** C2. *)
Theorem retirement_capacity_per_period (employer account_deposit account_retirement : string)
  (annual_salary : Q) (ds : list date) (prs : list payroll) :
  0 <= annual_salary ->
  years_sorted ds = true ->
  pay_run employer account_deposit account_retirement annual_salary init_pay_state ds = Ok prs ->
  (forall pre pr post, prs = pre ++ pr :: post ->
     let st := state_before init_pay_state pre in
     exists cr,
       (if new_year (date_prev st) (pay_date pr)
        then retirement_limit (year (pay_date pr)) = Some cr
        else cr = contrib_retirement st) /\
       pay_retirement pr = py_min cr (retirement_uncapped annual_salary) /\
       pay_cap_retirement pr == cr - pay_retirement pr /\
       0 <= pay_cap_retirement pr) /\
  (forall y L, retirement_limit y = Some L -> year_retirement y prs <= L).
Proof.
  intros Hs Hsort Hrun.
  assert (H0 : int_cap (contrib_retirement init_pay_state)).
  { exists 0%Z. split; [reflexivity | lia]. }
  split.
  - intros pre pr post Hsplit st.
    pose proof (pay_run_split _ _ _ _ _ _ _ _ _ _ Hrun Hsplit) as Hst. fold st in Hst.
    destruct (pay_step_spec _ _ _ _ _ _ _ _ Hst) as (cr & cs & Hc & Hret & Hcr & _).
    assert (Hi : int_cap (contrib_retirement st)).
    { unfold st. destruct (state_before_cases init_pay_state pre) as [->|[p [Hp ->]]];
        [exact H0|].
      pose proof (pay_run_int _ _ _ _ _ _ _ Hs H0 Hrun) as Hall.
      rewrite Forall_forall in Hall. apply Hall. rewrite Hsplit. apply in_or_app. left. exact Hp. }
    pose proof (capacity_int _ _ _ _ Hi Hc) as Hcri.
    destruct (retirement_step_exact annual_salary cr Hs Hcri) as [Hex Hint].
    rewrite <- Hret, <- Hcr in Hex, Hint.
    exists cr. split; [|split; [exact Hret | split; [exact Hex | apply int_cap_nonneg, Hint]]].
    destruct (capacities_cases _ _ _ _ Hc) as [(Hn & HL & _)|(Hn & -> & _)]; rewrite Hn.
    + exact HL.
    + reflexivity.
  - intros y L HL.
    apply (year_sum_bound employer account_deposit account_retirement annual_salary
             init_pay_state ds prs y L Hs H0 HL Hsort); [|exact Hrun].
    intros p Hp. discriminate.
Qed.

Lemma retirement_capacity_per_period_witness :
  exists prs,
    0 <= 120000 /\
    years_sorted (dates_from (mkdate 2012 1 5) 30) = true /\
    pay_run "Employer" "Assets:CC:Bank1:Checking" "Assets:CC:Retirement" 120000 init_pay_state
      (dates_from (mkdate 2012 1 5) 30) = Ok prs /\
    year_retirement 2012 prs <= 17000.
Proof.
  destruct (pay_run "Employer" "Assets:CC:Bank1:Checking" "Assets:CC:Retirement" 120000
              init_pay_state (dates_from (mkdate 2012 1 5) 30)) as [prs|err] eqn:E;
    pose proof E as E'; vm_compute in E'; [|discriminate E'].
  exists prs.
  assert (Hs : 0 <= 120000) by (vm_compute; discriminate).
  assert (Hsort : years_sorted (dates_from (mkdate 2012 1 5) 30) = true) by (vm_compute; reflexivity).
  split; [exact Hs|]. split; [exact Hsort|]. split; [first [exact E | reflexivity]|].
  apply (proj2 (retirement_capacity_per_period _ _ _ _ _ _ Hs Hsort E) 2012%Z 17000).
  reflexivity.
Defined.



Lemma template_balanced d py nr (acc : acct_tmpl -> string) (fv : field -> Q) (keep : bool) :
  template_ccy_sum fv keep == 0 ->
  balanced (mktxn d py nr
    (map (fun l => mkposting (acc (l_account l))
                     (if l_neg l then - fv (l_field l) else fv (l_field l)) (l_currency l))
         (if keep then template else filter (fun l => negb (mentions_retirement l)) template)))
  = true.
Proof.
  unfold template_ccy_sum. intros H.
  destruct keep; unfold balanced; cbn -[Qplus Qopp Qeq_bool];
  rewrite ?andb_true_iff; repeat split; apply Qeq_bool_iff;
  first [ring | eapply Qeq_trans; [|exact H]; ring].
Qed.




Lemma ccy_sum_rearrange A R G L D M V MC F ST C SD S :
  A + R - G - L + L + D + M + V + MC + F + ST + C + SD + S ==
  A + R + S + (- G - L + L + D + M + V + MC + F + ST + C + SD).
Proof. ring. Qed.

Lemma tF sal r s : template_ccy_sum (field_value sal r s) (negb (Qeq_bool r 0)) ==
   fmt2 (deposit_from (gross sal) (fixed sal) r s) + (if Qeq_bool r 0 then 0 else fmt2 r) + fmt2 s + ccy_fixed_sum sal.
Proof.
  assert (Hd : deposit sal r s = deposit_from (gross sal) (fixed sal) r s)
    by (unfold deposit, deposit_from; reflexivity).
  unfold template_ccy_sum. cbv beta iota delta [field_value]. rewrite Hd.
  unfold ccy_fixed_sum.
  destruct (Qeq_bool r 0); cbv beta iota delta [negb].
  - exact (ccy_sum_rearrange (fmt2 (deposit_from (gross sal) (fixed sal) r s)) 0
             (fmt2 (gross sal)) (fmt2 lifeinsurance) dental medical vision
             (fmt2 (medicare sal)) (fmt2 (federal sal)) (fmt2 (state sal)) (fmt2 (city sal))
             (fmt2 sdi) (fmt2 s)).
  - exact (ccy_sum_rearrange (fmt2 (deposit_from (gross sal) (fixed sal) r s)) (fmt2 r)
             (fmt2 (gross sal)) (fmt2 lifeinsurance) dental medical vision
             (fmt2 (medicare sal)) (fmt2 (federal sal)) (fmt2 (state sal)) (fmt2 (city sal))
             (fmt2 sdi) (fmt2 s)).
Qed.
Lemma tE a rr sal d r s : forall ls, map (render_line a rr sal (year d) r s) ls =
    map (fun l => mkposting (render_account a rr (year d) (l_account l))
                    (if l_neg l then - field_value sal r s (l_field l)
                     else field_value sal r s (l_field l)) (l_currency l)) ls.
Proof. intros ls. reflexivity. Qed.

Lemma payroll_balanced_fast_spec g f c r s :
  payroll_balanced_fast g f c r s = true ->
  fmt2 (deposit_from g f r s) + (if Qeq_bool r 0 then 0 else fmt2 r) + fmt2 s + c == 0.
Proof. unfold payroll_balanced_fast. apply Qeq_bool_iff. Qed.

Lemma payroll_balanced_of_fast e a rr sal d r s :
  payroll_balanced_fast (gross sal) (fixed sal) (ccy_fixed_sum sal) r s = true ->
  balanced (payroll_txn e a rr sal d r s) = true.
Proof.
  intros H. apply payroll_balanced_fast_spec in H.
  unfold payroll_txn. rewrite tE.
  replace (kept_lines r)
    with (if negb (Qeq_bool r 0) then template
          else filter (fun l => negb (mentions_retirement l)) template)
    by (unfold kept_lines; destruct (Qeq_bool r 0); reflexivity).
  apply template_balanced. rewrite tF. exact H.
Qed.







Lemma payroll_reach_check_120000 :
  payroll_reach_check (retirement_uncapped 120000) (socsec_uncapped 120000)
    (reach_retirement 120000) (reach_socsec 120000)
    (payroll_balanced_fast (gross 120000) (fixed 120000) (ccy_fixed_sum 120000)) = true.
Proof. vm_compute. reflexivity. Qed.

(** ** Balance of the emitted transactions *)

Lemma Qeqb_repr_eq x y : Qeqb_repr x y = true -> x = y.
Proof.
  destruct x as [a b], y as [c d]. unfold Qeqb_repr; simpl.
  rewrite andb_true_iff, Z.eqb_eq, Pos.eqb_eq. intros [-> ->]. reflexivity.
Qed.

Lemma memQ_in x l : memQ x l = true -> In x l.
Proof.
  unfold memQ. rewrite existsb_exists. intros [y [Hy He]].
  apply Qeqb_repr_eq in He. subst. exact Hy.
Qed.

Lemma dict_get_in k d v : dict_get k d = Some v -> exists k', In (k', v) d.
Proof.
  induction d as [|[k' v'] d IH]; simpl; [discriminate|].
  destruct (key_eqb k k').
  - intros H. inversion H; subst. exists k'. left. reflexivity.
  - intros H. destruct (IH H) as [k'' Hk]. exists k''. right. exact Hk.
Qed.

Section ReachFacts.
Variables (u su : Q) (R S : list Q) (bal : Q -> Q -> bool).

Lemma reach_facts :
  payroll_reach_check u su R S bal = true ->
  In 0 R /\ In 0 S /\ In 7000 S /\
  (forall k L, In (k, L) retirement_limits -> In L R) /\
  (forall cr, In cr R -> In (cap_step u cr) R) /\
  (forall cs, In cs S -> In (cap_step su cs) S) /\
  (forall cr cs, In cr R -> In cs S -> bal (py_min cr u) (py_min cs su) = true).
Proof.
  intros H. unfold payroll_reach_check in H.
  rewrite !andb_true_iff in H.
  destruct H as [[[[[[H0R H0S] H7S] HL] HR] HS] HB].
  rewrite forallb_forall in HL, HR, HS, HB.
  split; [apply memQ_in, H0R|]. split; [apply memQ_in, H0S|]. split; [apply memQ_in, H7S|].
  split; [intros k L Hin; apply memQ_in, (HL _ Hin)|].
  split; [intros cr Hin; apply memQ_in, (HR _ Hin)|].
  split; [intros cs Hin; apply memQ_in, (HS _ Hin)|].
  intros cr cs Hr Hs. specialize (HB _ Hr). rewrite forallb_forall in HB. apply HB, Hs.
Qed.

End ReachFacts.

Section ReachCheck.
Variables (e a r : string) (sal : Q) (R S : list Q).
Hypothesis Hchk :
  payroll_reach_check (retirement_uncapped sal) (socsec_uncapped sal) R S
    (payroll_balanced_fast (gross sal) (fixed sal) (ccy_fixed_sum sal)) = true.

Lemma reach_step st d st' pr :
  reach_inv R S st -> pay_step e a r sal st d = Ok (st', pr) ->
  reach_inv R S st' /\ balanced (pay_txn pr) = true.
Proof.
  intros [Hir His] Hs.
  destruct (reach_facts _ _ _ _ _ Hchk) as (_ & _ & H7 & HL & HR & HS & HB).
  destruct (pay_step_state _ _ _ _ _ _ _ _ Hs) as [-> _].
  destruct (pay_step_spec _ _ _ _ _ _ _ _ Hs) as (cr & cs & Hc & Hret & Hcr & Hso & Hcs & _ & Ht).
  assert (Hin : In cr R /\ In cs S).
  { destruct (capacities_cases _ _ _ _ Hc) as [(_ & Hl & ->)|(_ & -> & ->)].
    - destruct (dict_get_in _ _ _ Hl) as [k Hk]. split; [apply (HL _ _ Hk) | exact H7].
    - split; assumption. }
  destruct Hin as [Hcr_in Hcs_in].
  split; [split|].
  - cbn [contrib_retirement state_after]. rewrite Hcr, Hret. apply HR, Hcr_in.
  - cbn [contrib_socsec state_after]. rewrite Hcs, Hso. apply HS, Hcs_in.
  - rewrite Ht, Hret, Hso. apply payroll_balanced_of_fast, HB; assumption.
Qed.

Lemma reach_run st ds prs :
  reach_inv R S st -> pay_run e a r sal st ds = Ok prs ->
  Forall (fun pr => balanced (pay_txn pr) = true) prs.
Proof.
  revert st prs. induction ds as [|d ds IH]; intros st prs Hi H; simpl in H.
  - inversion H. constructor.
  - destruct (pay_step e a r sal st d) as [[st' pr]|] eqn:Hst; [|discriminate].
    destruct (pay_run e a r sal st' ds) as [prs'|] eqn:Hr; [|discriminate].
    inversion H; subst. destruct (reach_step _ _ _ _ Hi Hst) as [Hi' Hb].
    constructor; [exact Hb | apply (IH _ _ Hi' Hr)].
Qed.

Lemma employment_income_balanced ds ts :
  generate_employment_income e a r sal ds = Ok ts -> Forall (fun t => balanced t = true) ts.
Proof.
  unfold generate_employment_income.
  destruct (pay_run e a r sal init_pay_state ds) as [prs|] eqn:E; [|discriminate].
  intros H. inversion H; subst. apply Forall_map.
  apply (reach_run init_pay_state ds); [|exact E].
  destruct (reach_facts _ _ _ _ _ Hchk) as (H0R & H0S & _). split; assumption.
Qed.

End ReachCheck.

Lemma periodic_loop_balanced ps ns af at_ g pc nc n ds :
  Forall (fun t => balanced t = true) (periodic_loop ps ns af at_ g pc nc n ds).
Proof.
  revert n. induction ds as [|d ds IH]; intros n; simpl; constructor; [|apply IH].
  apply two_legs_balanced.
Qed.

Lemma transfer_loop_balanced am ao m t items st :
  Forall (fun t => balanced t = true) (snd st) ->
  Forall (fun t => balanced t = true) (snd (fold_left (transfer_step am ao m t) items st)).
Proof.
  revert st. induction items as [|[d p|d] items IH]; intros [bal out] H; simpl; [exact H| |].
  - apply IH. destruct (Qle_bool _ _); simpl; [exact H|].
    apply Forall_app. split; [exact H|]. constructor; [|constructor].
    apply two_legs_balanced.
  - apply IH, H.
Qed.

(** At the script's annual salary of 120000 every payroll transaction of a
    successful run balances in every currency, whatever the pay dates (the
    capacities reachable from the yearly limits and 7000 are checked
    exhaustively). *)
Theorem generated_transactions_balanced :
  forall employer account_deposit account_retirement ds ts,
    generate_employment_income employer account_deposit account_retirement 120000 ds = Ok ts ->
    Forall (fun t => balanced t = true) ts.
Proof.
  intros e a r ds ts. apply (employment_income_balanced e a r 120000 _ _ payroll_reach_check_120000).
Qed.

Lemma generated_transactions_balanced_witness :
  exists ts,
    generate_employment_income "Employer" "Assets:CC:Bank1:Checking" "Assets:CC:Retirement"
      120000 [mkdate 2012 1 5; mkdate 2012 1 19] = Ok ts /\
    Forall (fun t => balanced t = true) ts.
Proof.
  destruct (generate_employment_income "Employer" "Assets:CC:Bank1:Checking"
              "Assets:CC:Retirement" 120000 [mkdate 2012 1 5; mkdate 2012 1 19])
    as [ts|err] eqn:E; pose proof E as E'; vm_compute in E'; [|discriminate E'].
  exists ts. split; [first [exact E | reflexivity]|].
  apply (generated_transactions_balanced _ _ _ _ _ E).
Defined.

(** ** Retirement limits and exhausted capacities *)

(** C4: the limits table is looked up with an int year: a year outside
    2000..2016 has no entry (the default 18500 is stored under the key
    [None], which an int year never matches), so the first pay date of such
    a year raises KeyError instead of using the default. *)
Theorem retirement_limit_missing_year :
  (forall y, (y < 2000 \/ 2016 < y)%Z -> retirement_limit y = None) /\
  dict_get None retirement_limits = Some 18500 /\
  (forall employer account_deposit account_retirement annual_salary st d ds,
     new_year (date_prev st) d = true -> retirement_limit (year d) = None ->
     pay_run employer account_deposit account_retirement annual_salary st (d :: ds)
     = Err KeyError).
Proof.
  split; [|split].
  - intros y Hy. unfold retirement_limit. simpl.
    repeat match goal with
    | |- context [Z.eqb y ?c] => destruct (Z.eqb_spec y c); [lia|]
    end.
    reflexivity.
  - reflexivity.
  - intros e a r sal st d ds Hn Hl. simpl. unfold pay_step, capacities.
    rewrite Hn, Hl. reflexivity.
Qed.

Lemma retirement_limit_missing_year_witness :
  (2016 < 2017)%Z /\
  generate_employment_income "Employer" "Assets:CC:Bank1:Checking" "Assets:CC:Retirement"
    120000 [mkdate 2017 1 5] = Err KeyError.
Proof.
  split; [lia|].
  unfold generate_employment_income.
  rewrite (proj2 (proj2 retirement_limit_missing_year) "Employer"%string "Assets:CC:Bank1:Checking"%string
             "Assets:CC:Retirement"%string 120000 init_pay_state (mkdate 2017 1 5) [] eq_refl).
  - reflexivity.
  - apply (proj1 retirement_limit_missing_year). simpl. lia.
Defined.

Lemma fmt2_zero x : x == 0 -> fmt2 x == 0.
Proof.
  intros H. unfold fmt2.
  rewrite (round_half_even_comp (x * 100) (inject_Z 0)) by (rewrite H; reflexivity).
  rewrite round_half_even_Z. reflexivity.
Qed.

Lemma socsec_uncapped_nonneg sal : 0 <= sal -> 0 <= socsec_uncapped sal.
Proof.
  intros H. unfold socsec_uncapped, mul. apply round_prec_nonneg.
  apply Qmult_le_0_compat; [apply gross_nonneg, H | discriminate].
Qed.

Lemma py_min_zero c x : c == 0 -> 0 <= x -> py_min c x == 0.
Proof.
  intros Hc Hx. destruct (py_min_cases c x) as [[-> _]|[-> Hlt]]; [exact Hc|].
  rewrite Hc in Hlt. exfalso. apply (Qlt_not_le _ _ Hlt Hx).
Qed.

Lemma render_line_currency a rr sal y r s ls :
  forallb (fun l => negb (String.eqb (l_currency l) "DEFCCY")) ls = true ->
  Forall (fun p => currency p <> "DEFCCY"%string) (map (render_line a rr sal y r s) ls).
Proof.
  induction ls as [|l ls IH]; simpl; intros H; constructor.
  - apply andb_true_iff in H as [H _]. apply negb_true_iff, String.eqb_neq in H. exact H.
  - apply IH. apply andb_true_iff in H as [_ H]. exact H.
Qed.

(** C5, amended: within a year, once the retirement capacity is zero the
    contribution is zero and the three retirement lines are dropped (15
    postings remain, none in DEFCCY); once the social security capacity is
    zero the contribution is zero but the SocSec leg is still emitted, with
    the amount 0. *)
Theorem zero_capacity_legs (employer account_deposit account_retirement : string)
  (annual_salary : Q) (ds : list date) (prs pre post : list payroll) (pr : payroll) :
  0 <= annual_salary ->
  pay_run employer account_deposit account_retirement annual_salary init_pay_state ds = Ok prs ->
  prs = pre ++ pr :: post ->
  let st := state_before init_pay_state pre in
  new_year (date_prev st) (pay_date pr) = false ->
  (contrib_retirement st == 0 ->
     pay_retirement pr == 0 /\
     postings (pay_txn pr)
     = map (render_line account_deposit account_retirement annual_salary (year (pay_date pr))
              (pay_retirement pr) (pay_socsec pr))
           (filter (fun l => negb (mentions_retirement l)) template) /\
     List.length (postings (pay_txn pr)) = 15%nat /\
     Forall (fun p => currency p <> "DEFCCY"%string) (postings (pay_txn pr))) /\
  (contrib_socsec st == 0 ->
     pay_socsec pr == 0 /\
     exists p, In p (postings (pay_txn pr)) /\
       account p = ("Expenses:Taxes:Y" ++ string_of_Z (year (pay_date pr)) ++ ":CC:SocSec")%string /\
       number p == 0 /\ currency p = "CCY"%string).
Proof.
  intros Hs Hrun Hsplit st Hn.
  pose proof (pay_run_split _ _ _ _ _ _ _ _ _ _ Hrun Hsplit) as Hst. fold st in Hst.
  destruct (pay_step_spec _ _ _ _ _ _ _ _ Hst) as (cr & cs & Hc & Hret & _ & Hso & _ & _ & Ht).
  destruct (capacities_cases _ _ _ _ Hc) as [(Hn' & _)|(_ & Ecr & Ecs)];
    [rewrite Hn in Hn'; discriminate|].
  split.
  - intros H0.
    assert (Hr0 : pay_retirement pr == 0).
    { rewrite Hret, Ecr. apply py_min_zero; [exact H0|].
      destruct (retirement_uncapped_int _ Hs) as [m [-> Hm]]. apply inject_Z_nonneg, Hm. }
    assert (Hp : postings (pay_txn pr)
                 = map (render_line account_deposit account_retirement annual_salary
                          (year (pay_date pr)) (pay_retirement pr) (pay_socsec pr))
                       (filter (fun l => negb (mentions_retirement l)) template)).
    { rewrite Ht. unfold payroll_txn, kept_lines. cbn [postings].
      apply Qeq_bool_iff in Hr0. rewrite Hr0. reflexivity. }
    split; [exact Hr0|]. split; [exact Hp|]. split.
    + rewrite Hp, length_map. reflexivity.
    + rewrite Hp. apply render_line_currency. reflexivity.
  - intros H0.
    assert (Hs0 : pay_socsec pr == 0).
    { rewrite Hso, Ecs. apply py_min_zero; [exact H0 | apply socsec_uncapped_nonneg, Hs]. }
    split; [exact Hs0|].
    set (l := mkline (AcTax "SocSec") false FSocsec "CCY").
    exists (render_line account_deposit account_retirement annual_salary (year (pay_date pr))
              (pay_retirement pr) (pay_socsec pr) l).
    split; [|split; [reflexivity | split; [apply fmt2_zero, Hs0 | reflexivity]]].
    rewrite Ht. unfold payroll_txn. cbn [postings]. apply in_map.
    unfold kept_lines, l. destruct (Qeq_bool _ _); simpl; tauto.
Qed.

Lemma zero_capacity_legs_witness :
  exists prs pre pr,
    pay_run "Employer" "Assets:CC:Bank1:Checking" "Assets:CC:Retirement" 3000000 init_pay_state
      [mkdate 2012 1 5; mkdate 2012 1 19] = Ok prs /\
    prs = pre ++ [pr] /\
    contrib_retirement (state_before init_pay_state pre) == 0 /\
    contrib_socsec (state_before init_pay_state pre) == 0 /\
    List.length (postings (pay_txn pr)) = 15%nat /\
    exists p, In p (postings (pay_txn pr)) /\ number p == 0 /\ currency p = "CCY"%string.
Proof.
  destruct (pay_run "Employer" "Assets:CC:Bank1:Checking" "Assets:CC:Retirement" 3000000
              init_pay_state [mkdate 2012 1 5; mkdate 2012 1 19]) as [prs|err] eqn:E;
    pose proof E as E'; vm_compute in E'; [|discriminate E'].
  injection E' as E'. subst prs.
  assert (Hs : 0 <= 3000000) by (vm_compute; discriminate).
  match type of E with
  | _ = Ok [?x1; ?x2] =>
      exists [x1; x2], [x1], x2;
      assert (Hn : new_year (date_prev (state_before init_pay_state [x1])) (pay_date x2) = false)
        by (vm_compute; reflexivity);
      assert (Hr : contrib_retirement (state_before init_pay_state [x1]) == 0)
        by (vm_compute; reflexivity);
      assert (Hc : contrib_socsec (state_before init_pay_state [x1]) == 0)
        by (vm_compute; reflexivity);
      pose proof (zero_capacity_legs _ _ _ _ _ _ [x1] [] x2 Hs E eq_refl Hn) as H
  end.
  destruct H as [HR HS].
  split; [exact E|]. split; [reflexivity|]. split; [exact Hr|]. split; [exact Hc|].
  destruct (HR Hr) as (_ & _ & Hlen & _).
  destruct (HS Hc) as (_ & p & Hin & _ & Hnum & Hcur).
  split; [exact Hlen|]. exists p. split; [exact Hin|]. split; assumption.
Defined.

(** ** Outgoing transfers *)

(** C1, counterexample: a posting of 5000.125 CCY with minimum 0 and
    threshold 0 triggers a transfer whose legs move 5000.12, not the
    balance minus the minimum (5000.125); and a posting dated 9999-12-31
    that triggers a transfer raises OverflowError instead of emitting a
    transfer dated the next day. *)
Lemma transfer_amount_rounded :
  generate_outgoing_transfers "Assets:Mon" "Assets:Out" 0 0
    [DTxn (mktxn (mkdate 2012 1 5) "" ""
             [mkposting "Assets:Mon" (5000125 # 1000) "CCY";
              mkposting "Income:Other" (- (5000125 # 1000)) "CCY"])]
  = [transfer_txn "Assets:Mon" "Assets:Out" (mkdate 2012 1 6) (5000125 # 1000)] /\
  (forall parse,
     generate_outgoing_transfers_run "Assets:Mon" "Assets:Out" 0 0 parse
       [DTxn (mktxn (mkdate 2012 1 5) "" ""
                [mkposting "Assets:Mon" (5000125 # 1000) "CCY";
                 mkposting "Income:Other" (- (5000125 # 1000)) "CCY"])]
     = parse [transfer_txn "Assets:Mon" "Assets:Out" (mkdate 2012 1 6) (5000125 # 1000)]) /\
  ~ Dec.fmt2 (5000125 # 1000) == 5000125 # 1000 /\
  (forall parse,
     generate_outgoing_transfers_run "Assets:Mon" "Assets:Out" 1000 500 parse
       [DTxn (mktxn date_max "" ""
                [mkposting "Assets:Mon" 5000 "CCY"; mkposting "Income:Other" (-5000) "CCY"])]
     = Err OverflowError).
Proof.
  split; [vm_compute; reflexivity|]. split; [intros parse; vm_compute; reflexivity|].
  split; [vm_compute; discriminate|].
  intros parse. vm_compute. reflexivity.
Qed.

Lemma get_amount_inv_add inv c n :
  get_amount (inv_add inv c n) c
  = if existsb (fun '(c', _) => String.eqb c c') inv then get_amount inv c ⊕ n else n.
Proof.
  induction inv as [|[c' m] inv IH]; simpl.
  - rewrite String.eqb_refl. reflexivity.
  - destruct (String.eqb c c') eqn:E; simpl; rewrite ?E; [reflexivity|exact IH].
Qed.

Lemma get_amount_absent inv c :
  existsb (fun '(c', _) => String.eqb c c') inv = false -> get_amount inv c = 0.
Proof.
  induction inv as [|[c' m] inv IH]; simpl; [reflexivity|].
  destruct (String.eqb c c'); [discriminate|exact IH].
Qed.

Lemma transfer_loop_app am ao m t items items' :
  transfer_loop am ao m t (items ++ items')
  = fold_left (transfer_step am ao m t) items' (transfer_loop am ao m t items).
Proof. unfold transfer_loop. apply fold_left_app. Qed.

Lemma transfer_out_prefix am ao m t items st :
  exists rest, snd (fold_left (transfer_step am ao m t) items st) = snd st ++ rest.
Proof.
  revert st. induction items as [|[d p|d] items IH]; intros [bal out]; simpl.
  - exists []. rewrite app_nil_r. reflexivity.
  - destruct (Qle_bool _ _).
    + exact (IH _).
    + destruct (IH (inv_add (add_position bal p) "CCY" (- (get_amount (add_position bal p) "CCY" ⊖ m)),
                  out ++ [transfer_txn am ao (next_day d) (get_amount (add_position bal p) "CCY" ⊖ m)]))
        as [rest Hr].
      exists (transfer_txn am ao (next_day d) (get_amount (add_position bal p) "CCY" ⊖ m) :: rest).
      rewrite Hr. simpl. rewrite <- app_assoc. reflexivity.
  - exact (IH _).
Qed.

Lemma ten27 : (10 ^ 27 = 1000000000000000000000000000)%Z.
Proof. reflexivity. Qed.

Lemma pow10_m2 : pow10 (-2) == 1 # 100.
Proof. reflexivity. Qed.

(** A difference of two amounts in cents is exact in the default context
    and survives ['{:.2f}']. *)
Lemma cents_sub_exact x y kx ky :
  x == inject_Z kx * (1 # 100) -> y == inject_Z ky * (1 # 100) ->
  (Z.abs kx < 10 ^ 27)%Z -> (Z.abs ky < 10 ^ 27)%Z ->
  x ⊖ y == x - y /\ fmt2 (x ⊖ y) == x - y.
Proof.
  intros Hx Hy Bx By.
  assert (Hd : x - y == inject_Z (kx - ky) * pow10 (-2)).
  { rewrite Hx, Hy, pow10_m2. unfold Qminus. rewrite <- Z.add_opp_r, inject_Z_plus, inject_Z_opp.
    ring. }
  assert (Hex : x ⊖ y == x - y).
  { unfold sub. apply (round_prec_exact _ 2 (kx - ky)); [lia| |exact Hd].
    unfold default_prec. rewrite ten27 in Bx, By. rewrite ten28. lia. }
  split; [exact Hex|].
  unfold fmt2.
  rewrite (round_half_even_comp ((x ⊖ y) * 100) (inject_Z (kx - ky))).
  - rewrite round_half_even_Z, Hd, pow10_m2. reflexivity.
  - rewrite Hex, Hd, pow10_m2. rewrite <- Qmult_assoc. setoid_replace ((1 # 100) * 100) with 1
      by reflexivity. ring.
Qed.

Lemma py_next_day_ok d :
  valid_date d -> date_ltb d date_max = true -> py_next_day d = Ok (next_day d).
Proof.
  destruct d as [y m dd]. unfold valid_date, date_ltb, date_max. cbn [year month day].
  intros [Hm Hd] Hlt.
  assert (Hy : (y < 9999 \/ y = 9999 /\ (m < 12 \/ m = 12 /\ dd < 31))%Z).
  { revert Hlt.
    destruct (Z.ltb_spec y 9999); [intros _; left; exact H|].
    destruct (Z.eqb_spec y 9999); [|intros Hf; discriminate Hf].
    destruct (Z.ltb_spec m 12); [intros _; right; auto|].
    destruct (Z.eqb_spec m 12); [|intros Hf; discriminate Hf].
    destruct (Z.ltb_spec dd 31); [intros _; right; split; [exact e|right; auto]|].
    intros Hf; discriminate Hf. }
  unfold py_next_day.
  destruct (Z.leb_spec (year (next_day (mkdate y m dd))) 9999) as [H|H]; [reflexivity|exfalso].
  revert H. unfold next_day. cbn [year month day].
  destruct (Z.ltb_spec dd (days_in_month y m)); [cbn [year]; lia|].
  destruct (Z.ltb_spec m 12); [cbn [year]; lia|].
  assert (m = 12)%Z by lia. subst m. change (days_in_month y 12) with 31%Z in *.
  cbn [year]. lia.
Qed.

Lemma transfer_step_run_ok am ao m t st it :
  item_before_max it -> transfer_step_run am ao m t (Ok st) it = Ok (transfer_step am ao m t st it).
Proof.
  destruct st as [bal out], it as [d p|d]; intros H; [|reflexivity].
  destruct H as [Hv Hl]. unfold transfer_step_run, transfer_step.
  destruct (Qle_bool _ _); [reflexivity|].
  rewrite (py_next_day_ok d Hv Hl). reflexivity.
Qed.

Lemma transfer_run_ok am ao m t items st :
  Forall item_before_max items ->
  fold_left (transfer_step_run am ao m t) items (Ok st)
  = Ok (fold_left (transfer_step am ao m t) items st).
Proof.
  revert st. induction items as [|it items IH]; intros st H; [reflexivity|].
  inversion H as [|? ? Hit Hrest]; subst. cbn [fold_left].
  rewrite (transfer_step_run_ok am ao m t st it Hit). apply IH, Hrest.
Qed.

Lemma realize_has_posting entries a pre d p post :
  realize_postings entries a = pre ++ RPosting d p :: post -> realize_has_account entries a = true.
Proof.
  intros H. assert (Hin : In (RPosting d p) (realize_postings entries a))
    by (rewrite H; apply in_or_app; right; left; reflexivity).
  unfold realize_postings in Hin. apply in_flat_map in Hin as [e [He Hin]].
  destruct e as [t|d' a'].
  2:{ destruct (String.eqb a' a); simpl in Hin;
      [destruct Hin as [Hin|Hin]; [discriminate Hin | contradiction] | contradiction]. }
  apply in_map_iff in Hin as [p' [Hp' Hin]]. injection Hp' as _ Hpp. subst p'.
  apply filter_In in Hin as [Hin Ha]. apply String.eqb_eq in Ha.
  unfold realize_has_account. apply existsb_exists. exists (account p).
  split; [|rewrite Ha, String.eqb_refl; reflexivity].
  apply in_flat_map. exists (DTxn t). split; [exact He|]. apply in_map, Hin.
Qed.

(** C1, amended: when the CCY balance after a posting of the monitored
    account exceeds [minimum + threshold], the loop writes a transfer dated
    the next day for [balance - minimum] (a Decimal subtraction) and
    subtracts that amount from the tracked balance; the result of
    [generate_outgoing_transfers] is the parse of a text that contains that
    transfer after the ones written before it.  The transfer legs carry the
    amount printed with 2 fractional digits: for amounts in cents (of fewer
    than 28 digits) they move exactly [balance - minimum] and the tracked
    balance becomes exactly [minimum].  The next day must be a
    [datetime.date] (a posting dated 9999-12-31 raises OverflowError); the
    accounts are copied unchanged into the
    text ([transfer_accounts_plain]) and the amount is not negative. *)
Theorem transfer_at_threshold (account_mon account_out : string)
  (transfer_minimum transfer_threshold : Q) (entries : list directive)
  (pre post : list real_item) (d : date) (p : posting) (bal0 : inventory)
  (out0 : list transaction) :
  transfer_accounts_plain account_mon account_out = true ->
  realize_postings entries account_mon = pre ++ RPosting d p :: post ->
  transfer_loop_run account_mon account_out transfer_minimum transfer_threshold pre
    = Ok (bal0, out0) ->
  valid_date d -> date_ltb d date_max = true ->
  let cur := get_amount (add_position bal0 p) "CCY" in
  Qltb (transfer_minimum ⊕ transfer_threshold) cur = true ->
  0 <= cur ⊖ transfer_minimum ->
  let bal1 := inv_add (add_position bal0 p) "CCY" (- (cur ⊖ transfer_minimum)) in
  let txn := transfer_txn account_mon account_out (next_day d) (cur ⊖ transfer_minimum) in
  transfer_loop_run account_mon account_out transfer_minimum transfer_threshold
    (pre ++ [RPosting d p]) = Ok (bal1, out0 ++ [txn]) /\
  (forall parse, Forall item_before_max post ->
     exists rest, generate_outgoing_transfers_run account_mon account_out transfer_minimum
                    transfer_threshold parse entries = parse (out0 ++ txn :: rest)) /\
  (forall kc km, cur == inject_Z kc * (1 # 100) -> transfer_minimum == inject_Z km * (1 # 100) ->
     (Z.abs kc < 10 ^ 27)%Z -> (Z.abs km < 10 ^ 27)%Z ->
     postings txn = [mkposting account_mon (- fmt2 (cur ⊖ transfer_minimum)) "CCY";
                     mkposting account_out (fmt2 (cur ⊖ transfer_minimum)) "CCY"] /\
     fmt2 (cur ⊖ transfer_minimum) == cur - transfer_minimum /\
     get_amount bal1 "CCY" == transfer_minimum).
Proof.
  intros _ Hreal Hpre Hv Hmax cur Hlt _ bal1 txn.
  assert (Hstep : transfer_loop_run account_mon account_out transfer_minimum transfer_threshold
                    (pre ++ [RPosting d p]) = Ok (bal1, out0 ++ [txn])).
  { unfold transfer_loop_run. rewrite fold_left_app. fold (transfer_loop_run account_mon
      account_out transfer_minimum transfer_threshold pre). rewrite Hpre. cbn [fold_left].
    rewrite transfer_step_run_ok by (split; assumption).
    simpl. fold cur.
    unfold Qltb in Hlt. apply negb_true_iff in Hlt. rewrite Hlt. reflexivity. }
  split; [exact Hstep|]. split.
  - intros parse Hpost. unfold generate_outgoing_transfers_run.
    rewrite (realize_has_posting _ _ _ _ _ _ Hreal). cbn [negb]. rewrite Hreal.
    replace (pre ++ RPosting d p :: post) with ((pre ++ [RPosting d p]) ++ post)
      by (rewrite <- app_assoc; reflexivity).
    unfold transfer_loop_run in Hstep |- *. rewrite fold_left_app, Hstep.
    rewrite transfer_run_ok by exact Hpost.
    destruct (transfer_out_prefix account_mon account_out transfer_minimum transfer_threshold
                post (bal1, out0 ++ [txn])) as [rest Hr].
    destruct (fold_left _ post (bal1, out0 ++ [txn])) as [b o]. cbn [snd] in Hr.
    exists rest. rewrite Hr, <- app_assoc. reflexivity.
  - intros kc km Hc Hm Bc Bm.
    destruct (cents_sub_exact cur transfer_minimum kc km Hc Hm Bc Bm) as [Hex Hf].
    split; [reflexivity|]. split; [exact Hf|].
    unfold bal1. rewrite get_amount_inv_add.
    destruct (existsb _ (add_position bal0 p)) eqn:Ep.
    + unfold add. eapply Qeq_trans; [apply (round_prec_exact _ 2 km)|].
      * lia.
      * unfold default_prec. rewrite ten27 in Bm. rewrite ten28. lia.
      * fold cur. change (pow10 (Z.opp 2)) with (pow10 (-2)). rewrite Hex, Hm, pow10_m2. ring.
      * fold cur. rewrite Hex. ring.
    + assert (H0 : cur = 0) by (unfold cur; apply get_amount_absent, Ep).
      rewrite Hex, H0. ring.
Qed.

Lemma transfer_at_threshold_witness :
  (exists rest,
     generate_outgoing_transfers_run "Assets:Mon" "Assets:Out" 1000 500 (fun ts => Ok ts)
       [DTxn (mktxn (mkdate 2012 1 5) "" ""
                [mkposting "Assets:Mon" 5000 "CCY"; mkposting "Income:Other" (-5000) "CCY"])]
     = Ok ([] ++ transfer_txn "Assets:Mon" "Assets:Out" (next_day (mkdate 2012 1 5))
                   (get_amount (add_position [] (mkposting "Assets:Mon" 5000 "CCY")) "CCY" ⊖ 1000)
                 :: rest)) /\
  get_amount (inv_add (add_position [] (mkposting "Assets:Mon" 5000 "CCY")) "CCY"
                (- (get_amount (add_position [] (mkposting "Assets:Mon" 5000 "CCY")) "CCY" ⊖ 1000)))
    "CCY" == 1000.
Proof.
  pose proof (transfer_at_threshold "Assets:Mon" "Assets:Out" 1000 500
    [DTxn (mktxn (mkdate 2012 1 5) "" ""
             [mkposting "Assets:Mon" 5000 "CCY"; mkposting "Income:Other" (-5000) "CCY"])]
    [] [] (mkdate 2012 1 5) (mkposting "Assets:Mon" 5000 "CCY") [] []
    ltac:(vm_compute; reflexivity) ltac:(vm_compute; reflexivity) eq_refl
    ltac:(unfold valid_date, days_in_month; cbn; lia) ltac:(vm_compute; reflexivity)
    ltac:(vm_compute; reflexivity) ltac:(vm_compute; discriminate)) as H.
  destruct H as (_ & Hrun & Hc).
  destruct (Hc 500000%Z 100000%Z) as (_ & _ & Hm);
    [vm_compute; reflexivity | vm_compute; reflexivity | vm_compute; reflexivity
    | vm_compute; reflexivity |].
  split; [|exact Hm].
  exact (Hrun (fun ts => Ok ts) (Forall_nil _)).
Defined.

(* ========================================================================= *)
(** * Further properties of the generators *)

(** ** [skipiter] *)

Lemma nth_error_skipn_add {A : Type} (n i : nat) (l : list A) :
  nth_error (skipn n l) i = nth_error l (n + i).
Proof.
  revert l. induction n as [|n IH]; intros [|x l]; simpl; auto.
  destruct i; reflexivity.
Qed.

Lemma skip_loop_nth {A : Type} (fuel : nat) (k : Z) (xs : list A) :
  (0 < k)%Z -> (List.length xs <= fuel)%nat ->
  forall i, nth_error (skip_loop fuel k xs) i = nth_error xs (i * Z.to_nat k).
Proof.
  intros Hk. revert xs. induction fuel as [|f IH]; intros xs Hl i.
  - destruct xs; [|simpl in Hl; lia]. simpl. rewrite !nth_error_nil. reflexivity.
  - destruct xs as [|x xs]; simpl.
    + rewrite !nth_error_nil. reflexivity.
    + destruct i as [|j]; [reflexivity|]. simpl.
      rewrite IH.
      * rewrite nth_error_skipn_add.
        replace (Z.to_nat k + j * Z.to_nat k)%nat with (S (Z.to_nat (k - 1) + j * Z.to_nat k))
          by lia.
        reflexivity.
      * rewrite length_skipn. simpl in Hl. lia.
Qed.

(** [skipiter] asserts [num_skip > 0] before yielding anything; for a
    positive [num_skip] it yields exactly the values at the positions
    [0, num_skip, 2 * num_skip, ...] of the iterable. *)
Theorem skipiter_every_nth {A : Type} (iterable : list A) (num_skip : Z) :
  ((num_skip <= 0)%Z -> skipiter iterable num_skip = ([], Some AssertionError)) /\
  ((0 < num_skip)%Z ->
     snd (skipiter iterable num_skip) = None /\
     forall i, nth_error (fst (skipiter iterable num_skip)) i
               = nth_error iterable (i * Z.to_nat num_skip)).
Proof.
  unfold skipiter. split.
  - intros H. destruct (Z.ltb_spec 0 num_skip); [lia | reflexivity].
  - intros H. destruct (Z.ltb_spec 0 num_skip); [|lia]. simpl. split; [reflexivity|].
    apply skip_loop_nth; [exact H | lia].
Qed.

Lemma skipiter_every_nth_witness :
  (0 < 2)%Z /\
  fst (skipiter [1; 2; 3; 4; 5]%Z 2) = [1; 3; 5]%Z /\
  nth_error (fst (skipiter [1; 2; 3; 4; 5]%Z 2)) 2 = nth_error [1; 2; 3; 4; 5]%Z 4.
Proof.
  split; [lia|]. split; [reflexivity|].
  exact (proj2 (proj2 (skipiter_every_nth [1; 2; 3; 4; 5]%Z 2) ltac:(lia)) 2%nat).
Defined.

(** ** The rent estimate of [main] *)

Lemma inject_Z_4 (k : Z) : inject_Z (4 * k) == 4 * inject_Z k.
Proof. rewrite inject_Z_mult. reflexivity. Qed.

(** The rounding of the rent estimate to a multiple of [rent_increment]
    does nothing: with the script's divisor 50 and increment 25, the rent is
    [int(annual_salary / 50)] itself (the division by 25 is exact), not a
    multiple of 25. *)
Theorem rent_amount_not_rounded (annual_salary : Q) :
  (Z.abs (py_int (annual_salary ⊘ 50)) < 10 ^ 26)%Z ->
  rent_amount annual_salary 50 25 == inject_Z (py_int (annual_salary ⊘ 50)).
Proof.
  intros Hb. unfold rent_amount. set (k := py_int (annual_salary ⊘ 50)) in *. clearbody k.
  assert (H1 : inject_Z k ⊘ 25 == inject_Z k / 25).
  { unfold div. apply (round_prec_exact _ 2 (4 * k)); [lia| |].
    - unfold default_prec. rewrite ten28. assert (10 ^ 26 = 100000000000000000000000000)%Z
        as E by reflexivity. rewrite E in Hb. lia.
    - rewrite pow10_m2, inject_Z_4. field. }
  unfold mul. eapply Qeq_trans.
  - apply (round_prec_exact _ 0 k); [lia| |].
    + unfold default_prec. rewrite ten28. assert (10 ^ 26 = 100000000000000000000000000)%Z
        as E by reflexivity. rewrite E in Hb. lia.
    + rewrite H1. unfold pow10. simpl. field.
  - rewrite H1. field.
Qed.

Lemma rent_amount_not_rounded_witness :
  (Z.abs (py_int (120050 ⊘ 50)) < 10 ^ 26)%Z /\ rent_amount 120050 50 25 == 2401.
Proof.
  assert (H : (Z.abs (py_int (120050 ⊘ 50)) < 10 ^ 26)%Z) by (vm_compute; reflexivity).
  split; [exact H|].
  pose proof (rent_amount_not_rounded 120050 H) as E. rewrite E. vm_compute. reflexivity.
Defined.

(** ** [generate_tax_accounts] and the tax years of [main] *)

Lemma retirement_limit_some y :
  (exists L, retirement_limit y = Some L) <-> (2000 <= y <= 2016)%Z.
Proof.
  split.
  - unfold retirement_limit. simpl.
    repeat match goal with
    | |- context [Z.eqb y ?c] => destruct (Z.eqb_spec y c); [intros _; lia|]
    end.
    intros [L H]; discriminate.
  - intros H.
    assert (y = 2000 \/ y = 2001 \/ y = 2002 \/ y = 2003 \/ y = 2004 \/ y = 2005 \/
            y = 2006 \/ y = 2007 \/ y = 2008 \/ y = 2009 \/ y = 2010 \/ y = 2011 \/
            y = 2012 \/ y = 2013 \/ y = 2014 \/ y = 2015 \/ y = 2016)%Z as Hy by lia.
    repeat destruct Hy as [Hy|Hy]; subst; eexists; reflexivity.
Qed.

(** [generate_tax_accounts] fails with ValueError for a year outside
    [1..9999] (from [datetime.date]), with KeyError for the other years
    without a retirement limit, and succeeds exactly for 2000..2016. *)
Theorem generate_tax_accounts_errors (year : Z) :
  (generate_tax_accounts year = Err ValueError <-> (year < 1 \/ 9999 < year)%Z) /\
  (generate_tax_accounts year = Err KeyError <->
     (1 <= year <= 9999)%Z /\ (year < 2000 \/ 2016 < year)%Z) /\
  ((exists txt, generate_tax_accounts year = Ok txt) <-> (2000 <= year <= 2016)%Z).
Proof.
  pose proof (retirement_limit_some year) as Hs.
  unfold generate_tax_accounts.
  destruct (Z.leb_spec 1 year), (Z.leb_spec year 9999); simpl.
  - destruct (retirement_limit year) as [L|] eqn:E.
    + assert (2000 <= year <= 2016)%Z by (apply Hs; eauto).
      split; [split; [discriminate | lia]|]. split; [split; [discriminate | lia]|].
      split; [|eauto]. intros _. lia.
    + assert (~ (2000 <= year <= 2016)%Z) by (intros Hr; apply Hs in Hr as [L HL]; discriminate).
      split; [split; [discriminate | lia]|]. split; [split; [intros _; lia | intros _; reflexivity]|].
      split; [intros [t Ht]; discriminate | lia].
  - split; [split; [intros _; lia | intros _; reflexivity]|].
    split; [split; [discriminate | lia]|]. split; [intros [t Ht]; discriminate | lia].
  - split; [split; [intros _; lia | intros _; reflexivity]|].
    split; [split; [discriminate | lia]|]. split; [intros [t Ht]; discriminate | lia].
  - split; [split; [intros _; lia | intros _; reflexivity]|].
    split; [split; [discriminate | lia]|]. split; [intros [t Ht]; discriminate | lia].
Qed.

Lemma generate_tax_accounts_errors_witness :
  generate_tax_accounts 2017 = Err KeyError /\ generate_tax_accounts 0 = Err ValueError.
Proof.
  split.
  - apply (proj1 (proj2 (generate_tax_accounts_errors 2017))). lia.
  - apply (proj1 (generate_tax_accounts_errors 0)). lia.
Defined.

Lemma years_2000_2016 (y : Z) :
  (2000 <= y <= 2016)%Z ->
  y = 2000%Z \/ y = 2001%Z \/ y = 2002%Z \/ y = 2003%Z \/ y = 2004%Z \/ y = 2005%Z \/
  y = 2006%Z \/ y = 2007%Z \/ y = 2008%Z \/ y = 2009%Z \/ y = 2010%Z \/ y = 2011%Z \/
  y = 2012%Z \/ y = 2013%Z \/ y = 2014%Z \/ y = 2015%Z \/ y = 2016%Z.
Proof. intros H. lia. Qed.

(** The text of [generate_tax_accounts(year)] opens, on January 1st of
    that year, every tax account of that year to which the payroll template
    of [generate_employment_income] posts; it records the year's retirement
    limit as the allowed contribution, and no placeholder is left in it. *)
Theorem tax_accounts_open_payroll_accounts (year : Z) (txt : string)
  (account_deposit account_retirement : string) :
  generate_tax_accounts year = Ok txt ->
  (forall l s, In l template -> l_account l = AcTax s ->
     occurs (list_ascii_of_string
               (date_str (mkdate year 1 1) ++ " open "
                ++ render_account account_deposit account_retirement year (AcTax s) ++ " "))
            (list_ascii_of_string txt) = true) /\
  (forall L, retirement_limit year = Some L ->
     occurs (list_ascii_of_string ("Income:CC:Federal:PreTax401k    -" ++ str_limit L ++ " DEFCCY"))
            (list_ascii_of_string txt) = true) /\
  occurs (list_ascii_of_string "YYYY-MM-DD") (list_ascii_of_string txt) = false /\
  occurs (list_ascii_of_string "YEAR") (list_ascii_of_string txt) = false /\
  occurs (list_ascii_of_string "LIMIT") (list_ascii_of_string txt) = false.
Proof.
  intros H.
  assert (Hy : (2000 <= year <= 2016)%Z)
    by (apply (proj2 (proj2 (generate_tax_accounts_errors year))); eauto).
  enough (Hb : forallb (fun l => match l_account l with
                                 | AcTax s =>
                                     occurs (list_ascii_of_string
                                       (date_str (mkdate year 1 1) ++ " open "
                                        ++ render_account account_deposit account_retirement year
                                             (AcTax s) ++ " "))
                                       (list_ascii_of_string txt)
                                 | _ => true end) template
               && match retirement_limit year with
                  | Some L => occurs (list_ascii_of_string
                                ("Income:CC:Federal:PreTax401k    -" ++ str_limit L ++ " DEFCCY"))
                                (list_ascii_of_string txt)
                  | None => false end
               && negb (occurs (list_ascii_of_string "YYYY-MM-DD") (list_ascii_of_string txt))
               && negb (occurs (list_ascii_of_string "YEAR") (list_ascii_of_string txt))
               && negb (occurs (list_ascii_of_string "LIMIT") (list_ascii_of_string txt)) = true).
  { rewrite !andb_true_iff, !negb_true_iff in Hb.
    destruct Hb as [[[[Hl HL] H1] H2] H3].
    split; [|split; [|split; [exact H1 | split; [exact H2 | exact H3]]]].
    - intros l s Hin Hs. rewrite forallb_forall in Hl. specialize (Hl l Hin).
      rewrite Hs in Hl. exact Hl.
    - intros L EL. rewrite EL in HL. exact HL. }
  destruct (years_2000_2016 _ Hy) as [E|[E|[E|[E|[E|[E|[E|[E|[E|[E|[E|[E|[E|[E|[E|[E|E]]]]]]]]]]]]]]]];
    subst year; vm_compute in H; injection H as <-; vm_compute; reflexivity.
Qed.

Lemma tax_accounts_open_payroll_accounts_witness :
  exists txt, generate_tax_accounts 2012 = Ok txt /\
  occurs (list_ascii_of_string "2012-01-01 open Expenses:Taxes:Y2012:CC:SocSec ")
         (list_ascii_of_string txt) = true.
Proof.
  destruct (generate_tax_accounts 2012) as [txt|e] eqn:E; [|vm_compute in E; discriminate].
  exists txt. split; [reflexivity|].
  exact (proj1 (tax_accounts_open_payroll_accounts 2012 txt "" "" E)
           (mkline (AcTax "SocSec") false FSocsec "CCY") "SocSec"%string
           ltac:(vm_compute; tauto) eq_refl).
Defined.

Lemma in_py_range a b y : In y (py_range a b) <-> (a <= y < b)%Z.
Proof.
  unfold py_range. rewrite in_map_iff. split.
  - intros [k [<- Hk]]. apply in_seq in Hk. lia.
  - intros H. exists (Z.to_nat (y - a)). split; [lia|]. apply in_seq. lia.
Qed.

Lemma generate_tax_accounts_err y e :
  generate_tax_accounts y = Err e -> e = KeyError \/ e = ValueError.
Proof.
  unfold generate_tax_accounts. destruct (negb _); [intros H; inversion H; right; reflexivity|].
  destruct (retirement_limit y); intros H; inversion H; left; reflexivity.
Qed.

Lemma tax_loop_spec ys :
  ((exists l, tax_loop ys = Ok l) <-> Forall (fun y => (2000 <= y <= 2016)%Z) ys) /\
  (forall l, tax_loop ys = Ok l -> map fst l = ys) /\
  (forall e, tax_loop ys = Err e -> e = KeyError \/ e = ValueError).
Proof.
  induction ys as [|y ys [IH1 [IH2 IH3]]]; simpl.
  - split; [split; [intros _; constructor | intros _; eauto]|].
    split; [intros l H; inversion H; reflexivity | discriminate].
  - pose proof (proj2 (proj2 (generate_tax_accounts_errors y))) as Ho.
    pose proof (generate_tax_accounts_err y) as He.
    destruct (generate_tax_accounts y) as [txt|e] eqn:Eg.
    + assert (Hy : (2000 <= y <= 2016)%Z) by (apply Ho; eauto).
      destruct (tax_loop ys) as [l|e] eqn:Et.
      * split; [split; [intros _; constructor; [exact Hy | apply IH1; eauto] | eauto]|].
        split; [intros l' H; inversion H; subst; simpl; f_equal; apply IH2; reflexivity
               | discriminate].
      * split; [split; [intros [l H]; discriminate | intros H; inversion H; subst]|].
        { apply IH1 in H3 as [l H3]. discriminate. }
        split; [discriminate | intros e' H; inversion H; subst; apply IH3; reflexivity].
    + split; [split; [intros [l H]; discriminate | intros H; inversion H; subst]|].
      { apply Ho in H2 as [t Ht]. discriminate. }
      split; [discriminate | intros e' H; inversion H; subst; apply He; reflexivity].
Qed.

(** The tax years of [main], [range(date_begin.year, date_end.year)],
    all get their tax accounts exactly when each of them lies in
    2000..2016 (an empty range gives none); the sections come in the order
    of the years, and otherwise the comprehension fails with KeyError or
    ValueError. *)
Theorem main_taxes_years (begin_year end_year : Z) :
  ((exists l, main_taxes begin_year end_year = Ok l) <->
     (forall y, (begin_year <= y < end_year)%Z -> (2000 <= y <= 2016)%Z)) /\
  (forall l, main_taxes begin_year end_year = Ok l -> map fst l = py_range begin_year end_year) /\
  (forall e, main_taxes begin_year end_year = Err e -> e = KeyError \/ e = ValueError).
Proof.
  unfold main_taxes. destruct (tax_loop_spec (py_range begin_year end_year)) as [H1 [H2 H3]].
  split; [|split; [exact H2 | exact H3]].
  rewrite H1, Forall_forall. split.
  - intros H y Hy. apply H, in_py_range, Hy.
  - intros H y Hy. apply H, in_py_range, Hy.
Qed.

Lemma main_taxes_years_witness :
  (exists l, main_taxes 2012 2016 = Ok l /\ map fst l = [2012; 2013; 2014; 2015]%Z) /\
  main_taxes 2015 2018 = Err KeyError.
Proof.
  split.
  - destruct (proj2 (proj1 (main_taxes_years 2012 2016)) ltac:(intros; lia)) as [l Hl].
    exists l. split; [exact Hl|]. rewrite (proj1 (proj2 (main_taxes_years 2012 2016)) l Hl).
    reflexivity.
  - destruct (main_taxes 2015 2018) as [l|e] eqn:E.
    + exfalso. assert (H := proj1 (proj1 (main_taxes_years 2015 2018)) (ex_intro _ l E) 2017%Z).
      lia.
    + vm_compute in E. symmetry. exact E.
Defined.

(** ** When the payroll runs *)

Section PayYears.
Variables (e a r : string) (sal : Q).






End PayYears.



(** ** Calendar arithmetic and the cadence generators *)

Open Scope Z_scope.

Lemma toordinal_eq d : toordinal d = year_base (year d) + month_sum (year d) (Z.to_nat (month d - 1)) + day d.
Proof. reflexivity. Qed.

Lemma fold_add_acc (l : list Z) a : fold_right Z.add a l = fold_right Z.add 0 l + a.
Proof. induction l as [|x l IH]; simpl; [reflexivity | rewrite IH; lia]. Qed.

Lemma month_sum_S y k : month_sum y (S k) = month_sum y k + days_in_month y (Z.of_nat (S k)).
Proof.
  unfold month_sum. rewrite seq_S, map_app, fold_right_app. simpl.
  rewrite fold_add_acc. replace (1 + k)%nat with (S k) by lia. lia.
Qed.

Lemma days_in_month_bounds y m : 28 <= days_in_month y m <= 31.
Proof.
  unfold days_in_month. destruct (Z.eqb m 2); [destruct (is_leap y); lia|].
  destruct (_ || _); lia.
Qed.

Lemma month_sum_mono y k k' : (k <= k')%nat -> month_sum y k <= month_sum y k'.
Proof.
  induction 1 as [|k' H IH]; [lia|]. rewrite month_sum_S.
  pose proof (days_in_month_bounds y (Z.of_nat (S k'))). lia.
Qed.

Lemma month_sum_11 y : month_sum y 11 = 334 + leap01 y.
Proof. unfold month_sum, leap01, days_in_month. simpl. destruct (is_leap y); reflexivity. Qed.

Lemma month_sum_12 y : month_sum y 12 = 365 + leap01 y.
Proof. rewrite month_sum_S, month_sum_11. change (days_in_month y (Z.of_nat 12)) with 31. lia. Qed.

Lemma year_base_S y : year_base (y + 1) = year_base y + 365 + leap01 y.
Proof.
  unfold year_base, leap01, is_leap. replace (y + 1 - 1) with y by lia.
  destruct (Z.eqb_spec (y mod 4) 0), (Z.eqb_spec (y mod 100) 0), (Z.eqb_spec (y mod 400) 0);
    simpl; Z.div_mod_to_equations; lia.
Qed.

Lemma year_base_mono y n : year_base y <= year_base (y + Z.of_nat n).
Proof.
  induction n as [|n IH]; [rewrite Z.add_0_r; lia|].
  rewrite Nat2Z.inj_succ, <- Z.add_1_r, Z.add_assoc, year_base_S. unfold leap01.
  destruct (is_leap _); lia.
Qed.

Lemma year_base_le y y' : y <= y' -> year_base y <= year_base y'.
Proof.
  intros H. replace y' with (y + Z.of_nat (Z.to_nat (y' - y))) by lia. apply year_base_mono.
Qed.

Lemma month_sum_month y m : 1 <= m ->
  month_sum y (Z.to_nat m) = month_sum y (Z.to_nat (m - 1)) + days_in_month y m.
Proof.
  intros H. replace (Z.to_nat m) with (S (Z.to_nat (m - 1))) by lia.
  rewrite month_sum_S. f_equal. f_equal. lia.
Qed.

Lemma toordinal_next_day d : valid_date d ->
  valid_date (next_day d) /\ toordinal (next_day d) = toordinal d + 1.
Proof.
  destruct d as [y m dd]. unfold valid_date, next_day. cbn [year month day].
  intros [Hm Hd].
  destruct (Z.ltb_spec dd (days_in_month y m)).
  - rewrite !toordinal_eq. cbn [year month day]. split; [lia|lia].
  - destruct (Z.ltb_spec m 12).
    + rewrite !toordinal_eq. cbn [year month day].
      pose proof (days_in_month_bounds y (m + 1)).
      replace (m + 1 - 1) with m by lia. rewrite (month_sum_month y m) by lia.
      split; lia.
    + assert (m = 12) by lia. subst m.
      rewrite !toordinal_eq. cbn [year month day].
      replace (Z.to_nat (1 - 1)) with O by lia. replace (Z.to_nat (12 - 1)) with 11%nat by lia.
      rewrite year_base_S, month_sum_11.
      assert (dd = 31) by (unfold days_in_month in *; simpl in *; lia). subst dd.
      split; [change (days_in_month (y + 1) 1) with 31; lia|]. change (month_sum (y + 1) 0) with 0. lia.
Qed.

Lemma toordinal_iter n d : valid_date d ->
  valid_date (Nat.iter n next_day d) /\ toordinal (Nat.iter n next_day d) = toordinal d + Z.of_nat n.
Proof.
  intros Hv. induction n as [|n IH]; [simpl; split; [exact Hv | lia]|].
  destruct IH as [IH1 IH2]. rewrite Nat.iter_succ.
  destruct (toordinal_next_day _ IH1) as [H1 H2]. split; [exact H1|]. lia.
Qed.

Lemma toordinal_add_days_z d n : valid_date d -> 0 <= n ->
  valid_date (add_days_z d n) /\ toordinal (add_days_z d n) = toordinal d + n.
Proof.
  intros Hv Hn. unfold add_days_z. destruct (Z.leb_spec 0 n); [|lia].
  destruct (toordinal_iter (Z.to_nat n) d Hv) as [H1 H2]. split; [exact H1|]. lia.
Qed.

Lemma toordinal_bounds d : valid_date d ->
  year_base (year d) < toordinal d <= year_base (year d + 1).
Proof.
  destruct d as [y m dd]. unfold valid_date. cbn [year month day]. intros [Hm Hd].
  rewrite toordinal_eq. cbn [year month day]. rewrite year_base_S. pose proof (month_sum_12 y) as H12.
  pose proof (month_sum_mono y 0 (Z.to_nat (m - 1)) ltac:(lia)) as Hlo.
  pose proof (month_sum_mono y (Z.to_nat m) 12 ltac:(lia)) as Hhi.
  rewrite month_sum_month in Hhi by lia. change (month_sum y 0) with 0 in Hlo. lia.
Qed.

Lemma date_ltb_toordinal a b : valid_date a -> valid_date b ->
  date_ltb a b = true -> toordinal a < toordinal b.
Proof.
  intros Ha Hb Hlt. pose proof (toordinal_bounds a Ha). pose proof (toordinal_bounds b Hb).
  destruct a as [ya ma da], b as [yb mb db]. unfold valid_date in *. cbn [year month day] in *.
  unfold date_ltb in Hlt. cbn [year month day] in Hlt.
  destruct (Z.ltb_spec ya yb).
  - pose proof (year_base_le (ya + 1) yb ltac:(lia)). lia.
  - destruct (Z.eqb_spec ya yb); [subst yb|discriminate]. simpl in Hlt.
    rewrite !toordinal_eq. cbn [year month day].
    destruct (Z.ltb_spec ma mb).
    + pose proof (month_sum_mono ya (Z.to_nat ma) (Z.to_nat (mb - 1)) ltac:(lia)) as Hm.
      rewrite month_sum_month in Hm by lia. lia.
    + destruct (Z.eqb_spec ma mb); [subst mb|discriminate].
      apply Z.ltb_lt in Hlt. lia.
Qed.

Lemma last_cons_default {A : Type} (a : A) (l : list A) (x y : A) :
  last (a :: l) x = last (a :: l) y.
Proof.
  revert a. induction l as [|b l IH]; intros a; [reflexivity|].
  change (last (a :: b :: l) x) with (last (b :: l) x).
  change (last (a :: b :: l) y) with (last (b :: l) y). apply IH.
Qed.

Lemma year_base_1 : year_base 1 = 0.
Proof. reflexivity. Qed.

Lemma year_base_10000 : year_base 10000 = 3652059.
Proof. reflexivity. Qed.

Lemma toordinal_date_max : toordinal date_max = 3652059.
Proof. reflexivity. Qed.

(** Adding [n >= 0] days to a [datetime.date] that stays before [date.max]
    succeeds, with the calendar sum. *)
Lemma py_add_days_ok d n :
  py_date d -> 0 <= n -> toordinal d + n <= toordinal date_max ->
  py_add_days d n = Ok (add_days_z d n) /\ py_date (add_days_z d n).
Proof.
  intros [Hv Hy] Hn Hle. rewrite toordinal_date_max in Hle.
  destruct (toordinal_add_days_z d n Hv Hn) as [Hv' Ho].
  pose proof (toordinal_bounds d Hv) as Bd.
  pose proof (year_base_le 1 (year d) ltac:(lia)) as B1. rewrite year_base_1 in B1.
  pose proof (toordinal_bounds _ Hv') as Bd'.
  assert (Hy' : 1 <= year (add_days_z d n) <= 9999).
  { split.
    - destruct (Z.leb_spec 1 (year (add_days_z d n))) as [H|H]; [exact H|].
      pose proof (year_base_le (year (add_days_z d n) + 1) 1 ltac:(lia)) as B.
      rewrite year_base_1 in B. lia.
    - destruct (Z.leb_spec (year (add_days_z d n)) 9999) as [H|H]; [exact H|].
      pose proof (year_base_le 10000 (year (add_days_z d n)) ltac:(lia)) as B.
      rewrite year_base_10000 in B. lia. }
  unfold py_add_days. cbv zeta.
  destruct (Z.ltb_spec 999999999 (Z.abs n)); [lia|].
  destruct (Z.leb_spec 1 (year (add_days_z d n))); [|lia].
  destruct (Z.leb_spec (year (add_days_z d n)) 9999); [|lia].
  split; [reflexivity | split; assumption].
Qed.

Lemma randint_ok rng i a b :
  (a <= b)%Z -> exists n, randint rng i a b = Ok (n, S i) /\ (a <= n <= b)%Z.
Proof.
  intros H. unfold randint. destruct (Z.leb_spec (b + 1 - a) 0); [lia|].
  eexists. split; [reflexivity|].
  pose proof (Z.mod_pos_bound (rng i) (b + 1 - a) ltac:(lia)). lia.
Qed.

Lemma delay_loop_shift rng i ds dmin dmax :
  0 <= dmin <= dmax ->
  Forall (fun dt => py_date dt /\ toordinal dt + dmax <= toordinal date_max) ds ->
  snd (delay_loop rng i ds dmin dmax) = None /\
  Forall2 (fun dt d => exists n, dmin <= n <= dmax /\ d = add_days_z dt n)
    ds (fst (delay_loop rng i ds dmin dmax)).
Proof.
  intros Hr Hds. revert i. induction Hds as [|dt ds [Hp Hle] Hds IH]; intros i; simpl.
  - split; [reflexivity | constructor].
  - destruct (randint_ok rng i dmin dmax ltac:(lia)) as [n [-> Hn]].
    destruct (py_add_days_ok dt n Hp ltac:(lia) ltac:(lia)) as [-> _].
    specialize (IH (S i)). destruct (delay_loop rng (S i) ds dmin dmax) as [rest err].
    simpl in IH |- *. destruct IH as [IH1 IH2]. split; [exact IH1|].
    constructor; [eauto | exact IH2].
Qed.

(** [delay_dates] with [0 <= delay_days_min <= delay_days_max], over
    [datetime.date]s that stay before [date.max] when delayed by
    [delay_days_max] days, never fails; it yields one date per upstream
    date, in order, each shifted by a number of days between the two
    bounds. *)
Theorem delay_dates_shift (rng : nat -> Z) (date_iter : list date)
  (delay_days_min delay_days_max : Z) :
  0 <= delay_days_min <= delay_days_max ->
  Forall (fun dt => py_date dt /\ toordinal dt + delay_days_max <= toordinal date_max) date_iter ->
  snd (delay_dates rng date_iter delay_days_min delay_days_max) = None /\
  Forall2 (fun dt d => exists n, delay_days_min <= n <= delay_days_max /\ d = add_days_z dt n)
    date_iter (fst (delay_dates rng date_iter delay_days_min delay_days_max)).
Proof. intros H1 H2. apply delay_loop_shift; assumption. Qed.

Lemma delay_dates_shift_witness :
  snd (delay_dates (fun _ => 7) [mkdate 2012 1 1; mkdate 2012 2 1] 2 5) = None /\
  List.length (fst (delay_dates (fun _ => 7) [mkdate 2012 1 1; mkdate 2012 2 1] 2 5)) = 2%nat.
Proof.
  destruct (delay_dates_shift (fun _ => 7) [mkdate 2012 1 1; mkdate 2012 2 1] 2 5
              ltac:(lia)
              ltac:(repeat constructor;
                    solve [unfold valid_date, days_in_month; cbn; lia
                          | cbn; lia
                          | apply Z.leb_le; vm_compute; reflexivity])) as [H1 H2].
  split; [exact H1|]. rewrite <- (Forall2_length H2). reflexivity.
Defined.

Lemma date_seq_loop_steps fuel rng i d date_end days_min days_max :
  0 <= days_min <= days_max -> py_date d -> valid_date date_end ->
  toordinal date_end + days_max - 1 <= toordinal date_max ->
  let out := date_seq_loop fuel rng i d date_end days_min days_max in
  snd out = None /\
  forall j d', nth_error (fst out) j = Some d' ->
    exists prev n, match j with O => prev = d | S j' => nth_error (fst out) j' = Some prev end /\
      date_ltb prev date_end = true /\ days_min <= n <= days_max /\ d' = add_days_z prev n.
Proof.
  intros Hr Hd He Hm. revert i d Hd. induction fuel as [|f IH]; intros i d Hd; simpl.
  - split; [reflexivity | intros [|j] d' H; discriminate].
  - destruct (date_ltb d date_end) eqn:Hlt; [|split; [reflexivity | intros [|j] d' H; discriminate]].
    destruct (randint_ok rng i days_min days_max ltac:(lia)) as [n [-> Hn]].
    pose proof (date_ltb_toordinal d date_end (proj1 Hd) He Hlt) as Ho.
    destruct (py_add_days_ok d n Hd ltac:(lia) ltac:(lia)) as [-> Hd'].
    specialize (IH (S i) (add_days_z d n) Hd').
    destruct (date_seq_loop f rng (S i) (add_days_z d n) date_end days_min days_max) as [rest err].
    simpl in IH |- *. destruct IH as [IH1 IH2]. split; [exact IH1|].
    intros [|j] d' H; simpl in H.
    + inversion H; subst. exists d, n. auto.
    + destruct (IH2 j d' H) as (prev & m & Hprev & Hl & Hmn & ->).
      exists prev, m. split; [|auto]. destruct j as [|j']; simpl; [subst; reflexivity | exact Hprev].
Qed.

(** [date_seq] with [0 < days_min <= days_max], from a [datetime.date] to
    an end date that stays before [date.max] when advanced by
    [days_max - 1] days, never fails; each date it yields is [days_min] to
    [days_max] days after the previous one (the first after [date_begin]),
    and it only steps from dates before [date_end]. *)
Theorem date_seq_steps (rng : nat -> Z) (date_begin date_end : date) (days_min days_max : Z) :
  py_date date_begin -> valid_date date_end ->
  toordinal date_end + days_max - 1 <= toordinal date_max ->
  0 < days_min -> days_min <= days_max ->
  let out := date_seq rng date_begin date_end days_min days_max in
  snd out = None /\
  forall j d, nth_error (fst out) j = Some d ->
    exists prev n,
      match j with O => prev = date_begin | S j' => nth_error (fst out) j' = Some prev end /\
      date_ltb prev date_end = true /\ days_min <= n <= days_max /\ d = add_days_z prev n.
Proof.
  intros Hb He Hm H0 Hr. unfold date_seq.
  destruct (Z.ltb_spec 0 days_min); [|lia]. destruct (Z.leb_spec days_min days_max); [|lia].
  apply date_seq_loop_steps; auto with zarith.
Qed.

Lemma date_seq_steps_witness :
  snd (date_seq (fun _ => 3) (mkdate 2012 1 1) (mkdate 2012 2 1) 1 5) = None /\
  nth_error (fst (date_seq (fun _ => 3) (mkdate 2012 1 1) (mkdate 2012 2 1) 1 5)) 0
    = Some (mkdate 2012 1 5).
Proof.
  destruct (date_seq_steps (fun _ => 3) (mkdate 2012 1 1) (mkdate 2012 2 1) 1 5
              ltac:(unfold py_date, valid_date, days_in_month; cbn; lia)
              ltac:(unfold valid_date, days_in_month; cbn; lia)
              ltac:(apply Z.leb_le; vm_compute; reflexivity)
              ltac:(lia) ltac:(lia)) as [H1 _].
  split; [exact H1 | vm_compute; reflexivity].
Defined.

Lemma date_seq_loop_ends fuel rng i d date_end days_min days_max :
  0 < days_min -> days_min <= days_max ->
  py_date d -> valid_date date_end ->
  toordinal date_end + days_max - 1 <= toordinal date_max ->
  toordinal date_end - toordinal d < Z.of_nat fuel ->
  let out := date_seq_loop fuel rng i d date_end days_min days_max in
  snd out = None /\ date_ltb (last (d :: fst out) d) date_end = false.
Proof.
  intros Hmin Hr Hd He Hm. revert i d Hd. induction fuel as [|f IH]; intros i d Hd Hf; simpl.
  - split; [reflexivity|]. destruct (date_ltb d date_end) eqn:Hlt; [|reflexivity].
    pose proof (date_ltb_toordinal d date_end (proj1 Hd) He Hlt). lia.
  - destruct (date_ltb d date_end) eqn:Hlt; [|split; [reflexivity | simpl; exact Hlt]].
    destruct (randint_ok rng i days_min days_max Hr) as [n [-> Hn]].
    pose proof (date_ltb_toordinal d date_end (proj1 Hd) He Hlt) as Hlo.
    destruct (toordinal_add_days_z d n (proj1 Hd) ltac:(lia)) as [_ Ho].
    destruct (py_add_days_ok d n Hd ltac:(lia) ltac:(lia)) as [-> Hd'].
    specialize (IH (S i) (add_days_z d n) Hd' ltac:(lia)).
    destruct (date_seq_loop f rng (S i) (add_days_z d n) date_end days_min days_max) as [rest err].
    cbn [fst snd] in IH |- *. destruct IH as [IH1 IH2]. split; [exact IH1|].
    change (last (d :: add_days_z d n :: rest) d) with (last (add_days_z d n :: rest) d).
    rewrite (last_cons_default _ rest d (add_days_z d n)). exact IH2.
Qed.

(** [date_seq] with [0 < days_min <= days_max], from a [datetime.date] to
    an end date that stays before [date.max] when advanced by
    [days_max - 1] days, never fails and stops exactly when its
    [while date < date_end] test fails: the last date it yields (or
    [date_begin] when it yields none) is not before [date_end]. *)
Theorem date_seq_ends (rng : nat -> Z) (date_begin date_end : date) (days_min days_max : Z) :
  py_date date_begin -> valid_date date_end ->
  toordinal date_end + days_max - 1 <= toordinal date_max ->
  0 < days_min -> days_min <= days_max ->
  let out := date_seq rng date_begin date_end days_min days_max in
  snd out = None /\ date_ltb (last (fst out) date_begin) date_end = false.
Proof.
  intros Hb He Hm Hmin Hr out. unfold out, date_seq.
  destruct (Z.ltb_spec 0 days_min); [|lia]. destruct (Z.leb_spec days_min days_max); [|lia].
  simpl negb. cbn iota.
  destruct (date_seq_loop_ends (S (Z.to_nat (toordinal date_end - toordinal date_begin)))
              rng 0 date_begin date_end days_min days_max Hmin Hr Hb He Hm ltac:(lia)) as [H1 H2].
  split; [exact H1|].
  destruct (fst (date_seq_loop _ _ _ _ _ _ _)) as [|x l] eqn:E; [exact H2|].
  change (last (date_begin :: x :: l) date_begin) with (last (x :: l) date_begin) in H2.
  exact H2.
Qed.

Lemma date_seq_ends_witness :
  date_ltb (last (fst (date_seq (fun i => Z.of_nat (3 * i)) (mkdate 2011 12 20)
                         (mkdate 2012 3 1) 10 20)) (mkdate 2011 12 20))
    (mkdate 2012 3 1) = false.
Proof.
  exact (proj2 (date_seq_ends (fun i => Z.of_nat (3 * i)) (mkdate 2011 12 20) (mkdate 2012 3 1)
                  10 20 ltac:(unfold py_date, valid_date, days_in_month; cbn; lia)
                  ltac:(unfold valid_date, days_in_month; cbn; lia)
                  ltac:(apply Z.leb_le; vm_compute; reflexivity)
                  ltac:(lia) ltac:(lia))).
Defined.

Open Scope Q_scope.

(** ** Account totals of the generated transactions *)

Lemma postings_total_acc acct ps acc :
  fold_right (fun p a => if String.eqb (account p) acct then number p + a else a) acc ps
  == fold_right (fun p a => if String.eqb (account p) acct then number p + a else a) 0 ps + acc.
Proof.
  induction ps as [|p ps IH]; simpl; [ring|].
  destruct (String.eqb (account p) acct); [rewrite IH; ring | exact IH].
Qed.

Lemma account_total_cons acct t ts :
  account_total acct (t :: ts) == account_total acct [t] + account_total acct ts.
Proof.
  unfold account_total at 1. simpl. rewrite postings_total_acc. unfold account_total. simpl.
  reflexivity.
Qed.

Lemma account_total_opposite a b ts :
  Forall (fun t => account_total a [t] == - account_total b [t]) ts ->
  account_total a ts == - account_total b ts.
Proof.
  induction ts as [|t ts IH]; intros H; [reflexivity|].
  inversion H; subst. rewrite (account_total_cons a t ts), (account_total_cons b t ts), H2, IH by assumption.
  ring.
Qed.

Lemma two_legs_opposite d py nr a b x :
  account_total a [mktxn d py nr [mkposting a (- x) "CCY"; mkposting b x "CCY"]]
  == - account_total b [mktxn d py nr [mkposting a (- x) "CCY"; mkposting b x "CCY"]].
Proof.
  unfold account_total. simpl. rewrite !String.eqb_refl.
  destruct (String.eqb b a) eqn:E1, (String.eqb a b) eqn:E2; try ring.
  - apply String.eqb_eq in E1. subst. rewrite String.eqb_refl in E2. discriminate.
  - apply String.eqb_eq in E2. subst. rewrite String.eqb_refl in E1. discriminate.
Qed.





Lemma transfer_fold_new am ao m t items st :
  exists new, snd (fold_left (transfer_step am ao m t) items st) = snd st ++ new /\
    (List.length new <= List.length (filter (fun it => match it with
                                            | RPosting _ _ => true | RDirective _ => false end)
                                          items))%nat /\
    Forall (fun txn => exists d p amount, In (RPosting d p) items /\
                         txn = transfer_txn am ao (next_day d) amount) new.
Proof.
  revert st. induction items as [|[d p|d] items IH]; intros [bal out]; simpl.
  - exists []. rewrite app_nil_r. auto.
  - destruct (Qle_bool _ _).
    + destruct (IH (add_position bal p, out)) as (new & H1 & H2 & H3).
      exists new. split; [exact H1|]. split; [lia|].
      eapply Forall_impl; [|exact H3]. intros txn (d' & p' & x & Hin & ->). eauto 6.
    + match goal with |- context [fold_left _ items (?b, out ++ [?x])] =>
        destruct (IH (b, out ++ [x])) as (new & H1 & H2 & H3); exists (x :: new) end.
      split; [rewrite H1; simpl; rewrite <- app_assoc; reflexivity|].
      split; [simpl; lia|].
      constructor; [eauto 6|].
      eapply Forall_impl; [|exact H3]. intros txn (d' & p' & x & Hin & ->). eauto 6.
  - destruct (IH (bal, out)) as (new & H1 & H2 & H3).
    exists new. split; [exact H1|]. split; [exact H2|].
    eapply Forall_impl; [|exact H3]. intros txn (d' & p' & x & Hin & ->). eauto 6.
Qed.

(** [generate_outgoing_transfers] writes at most one transfer per
    posting of the monitored account, each dated the day after such a
    posting and moving an amount from [account] to [account_out]; over all
    transfers, the total posted to [account] is the opposite of the total
    posted to [account_out]. *)
Theorem outgoing_transfers_shape (account_mon account_out : string)
  (transfer_minimum transfer_threshold : Q) (entries : list directive) :
  let items := realize_postings entries account_mon in
  let out := generate_outgoing_transfers account_mon account_out transfer_minimum
               transfer_threshold entries in
  (List.length out <= List.length (filter (fun it => match it with
                                           | RPosting _ _ => true | RDirective _ => false end)
                                         items))%nat /\
  Forall (fun txn => exists d p amount, In (RPosting d p) items /\
            txn = transfer_txn account_mon account_out (next_day d) amount) out /\
  account_total account_mon out == - account_total account_out out.
Proof.
  intros items out.
  destruct (transfer_fold_new account_mon account_out transfer_minimum transfer_threshold
              items ([], [])) as (new & H1 & H2 & H3).
  assert (Ho : out = new) by (unfold out, generate_outgoing_transfers, transfer_loop; exact H1).
  rewrite Ho. split; [exact H2|]. split; [exact H3|].
  apply account_total_opposite. eapply Forall_impl; [|exact H3].
  intros txn (d & p & x & _ & ->). apply two_legs_opposite.
Qed.

(** ** The vacation legs of the payroll *)

(** Every payroll transaction, whatever the salary, date and
    contributions, credits [Assets:CC:Employer1:Vacation] and debits
    [Income:CC:Employer1:Vacation] with the same number of VACCCY hours,
    [15 * 8 / 26] at precision 4 printed with 2 digits: 4.62. *)
Theorem payroll_vacation_legs (employer account_deposit account_retirement : string)
  (annual_salary : Q) (d : date) (retirement socsec : Q) :
  let t := payroll_txn employer account_deposit account_retirement annual_salary d
             retirement socsec in
  In (mkposting "Assets:CC:Employer1:Vacation" (Dec.fmt2 vacation_hrs) "VACCCY") (postings t) /\
  In (mkposting "Income:CC:Employer1:Vacation" (- Dec.fmt2 vacation_hrs) "VACCCY") (postings t) /\
  Dec.fmt2 vacation_hrs == 462 # 100.
Proof.
  intros t. unfold t, payroll_txn. cbn [postings].
  split; [|split; [|vm_compute; reflexivity]]; apply in_map_iff.
  - exists (mkline (AcLit "Assets:CC:Employer1:Vacation") false FVacation "VACCCY").
    split; [reflexivity|]. unfold kept_lines. destruct (Qeq_bool _ _); simpl; tauto.
  - exists (mkline (AcLit "Income:CC:Employer1:Vacation") true FVacation "VACCCY").
    split; [reflexivity|]. unfold kept_lines. destruct (Qeq_bool _ _); simpl; tauto.
Qed.
